(** * wallpaper-scene-renderer: handle exchange, external-memory import and
      user-property resolution

    A shallow embedding of

    - [src/src/Swapchain/ExSwapchain.hpp]  ([TexTiling], [ExHandle],
      [ExSwapchain = TripleSwapchain<ExHandle>]),
    - [src/qml_helper/glExtra.hpp]         ([GlExtra::init],
      [GlExtra::genExTexture], [GlExtra::deleteTexture]),
    - [src/src/WPUserProperties.hpp]       ([WPUserProperties]),

    followed by the properties the specification states about them.

    Integers are [Z] (the code compares and copies them, it does no
    arithmetic that could wrap), strings are [string], the property table
    and JSON objects are [gmap string _], and the graphics driver and Qt are
    an environment: every call the code makes is appended to a call log and
    answered by an oracle that sees the whole world before the call. *)

From Stdlib Require Import ZArith String Ascii Bool Lia.
From stdpp Require Import base option list gmap strings relations.

Set Warnings "-register-all".
Local Open Scope Z_scope.

(* ================================================================== *)
(** * ExSwapchain.hpp *)
(* ================================================================== *)

Inductive TexTiling : Type :=
| OPTIMAL
| LINEAR.

(** [struct ExHandle]: [fd] is an [int], [width] and [height] are
    [int32_t], [size] is a [std::size_t], [m_id] is the private id. *)
Record ExHandle : Type := mkExHandle {
  fd     : Z;
  width  : Z;
  height : Z;
  size   : Z;
  m_id   : Z
}.

(** [ExHandle() = default]: the member initialisers. *)
Definition ExHandle_default : ExHandle :=
  {| fd := -1; width := 0; height := 0; size := 0; m_id := 0 |}.

(** [ExHandle(int id): m_id(id)]. *)
Definition ExHandle_of_id (i : Z) : ExHandle :=
  {| fd := -1; width := 0; height := 0; size := 0; m_id := i |}.

Definition id (h : ExHandle) : Z := m_id h.

Definition set_fd (h : ExHandle) (v : Z) : ExHandle :=
  {| fd := v; width := width h; height := height h; size := size h;
     m_id := m_id h |}.

(* ================================================================== *)
(** * TripleSwapchain *)
(* ================================================================== *)

(** [ExSwapchain.hpp] only includes [TripleSwapchain.hpp] and instantiates
    it at [ExHandle]; the template itself is not among the sources.  Its
    model below follows section 4.1 of the specification. *)

Module TripleSwapchain.

Inductive SlotState : Type :=
| Free
| Writing
| Ready
| Reading.

Definition SlotState_eqb (a b : SlotState) : bool :=
  match a, b with
  | Free, Free | Writing, Writing | Ready, Ready | Reading, Reading => true
  | _, _ => false
  end.

(** Slot index, 0..2. *)
Inductive SlotRef : Type :=
| Slot0
| Slot1
| Slot2.

Definition all_slots : list SlotRef := [Slot0; Slot1; Slot2].

Section Chain.

Context {T : Type}.

Record Slot : Type := mkSlot {
  state  : SlotState;
  handle : T
}.

(** The three preallocated slots. *)
Record Swapchain : Type := mkSwapchain {
  slot0 : Slot;
  slot1 : Slot;
  slot2 : Slot
}.

Definition get (sc : Swapchain) (i : SlotRef) : Slot :=
  match i with
  | Slot0 => slot0 sc
  | Slot1 => slot1 sc
  | Slot2 => slot2 sc
  end.

Definition put (sc : Swapchain) (i : SlotRef) (s : Slot) : Swapchain :=
  match i with
  | Slot0 => {| slot0 := s; slot1 := slot1 sc; slot2 := slot2 sc |}
  | Slot1 => {| slot0 := slot0 sc; slot1 := s; slot2 := slot2 sc |}
  | Slot2 => {| slot0 := slot0 sc; slot1 := slot1 sc; slot2 := s |}
  end.

Definition state_of (sc : Swapchain) (i : SlotRef) : SlotState :=
  state (get sc i).

Definition set_state (sc : Swapchain) (i : SlotRef) (st : SlotState)
  : Swapchain :=
  put sc i {| state := st; handle := handle (get sc i) |}.

(** The slots that are in state [st], in index order. *)
Definition slots_in (st : SlotState) (sc : Swapchain) : list SlotRef :=
  List.filter (fun i => SlotState_eqb (state_of sc i) st) all_slots.

Definition count (st : SlotState) (sc : Swapchain) : nat :=
  length (slots_in st sc).

(** Modelled from the spec: the chain as created, "slots are preallocated
    for the chain's lifetime (capacity fixed at 3)", every slot [Free].
    [TripleSwapchain.hpp] is missing from the sources. *)
Definition create (h0 h1 h2 : T) : Swapchain :=
  {| slot0 := {| state := Free; handle := h0 |};
     slot1 := {| state := Free; handle := h1 |};
     slot2 := {| state := Free; handle := h2 |} |}.

(** Modelled from the spec: [acquireWrite] on a chosen slot, "returns a slot
    currently Free (never the slot in Ready or Reading), transitions it to
    Writing".  [TripleSwapchain.hpp] is missing from the sources. *)
Definition acquireWriteAt (i : SlotRef) (sc : Swapchain) : option Swapchain :=
  match state_of sc i with
  | Free => Some (set_state sc i Writing)
  | _ => None
  end.

(** Modelled from the spec: [acquireWrite() -> SlotRef], taking the first
    [Free] slot in index order; [None] when no slot is [Free].
    [TripleSwapchain.hpp] is missing from the sources. *)
Definition acquireWrite (sc : Swapchain) : option (SlotRef * Swapchain) :=
  match slots_in Free sc with
  | i :: _ => Some (i, set_state sc i Writing)
  | [] => None
  end.

(** Modelled from the spec: a newly completed write supersedes a stale
    [Ready] slot, "which reverts to Free and its prior Handle is
    discarded".  [TripleSwapchain.hpp] is missing from the sources. *)
Definition revert_ready (sc : Swapchain) (i : SlotRef) : Swapchain :=
  match state_of sc i with
  | Ready => set_state sc i Free
  | _ => sc
  end.

(** Modelled from the spec: [commitWrite(SlotRef, Handle)], "stores the
    Handle into the slot, transitions Writing -> Ready.  If another slot was
    already Ready ... that slot reverts to Free".  Committing a slot that is
    not [Writing] is the contract violation, [None].
    [TripleSwapchain.hpp] is missing from the sources. *)
Definition commitWrite (i : SlotRef) (h : T) (sc : Swapchain)
  : option Swapchain :=
  match state_of sc i with
  | Writing =>
      let sc' := foldl revert_ready sc all_slots in
      Some (put sc' i {| state := Ready; handle := h |})
  | _ => None
  end.

(** Modelled from the spec: [acquireRead] on a chosen slot, "returns the
    Ready slot if one exists, transitions it to Reading".
    [TripleSwapchain.hpp] is missing from the sources. *)
Definition acquireReadAt (i : SlotRef) (sc : Swapchain) : option Swapchain :=
  match state_of sc i with
  | Ready => Some (set_state sc i Reading)
  | _ => None
  end.

(** Modelled from the spec: [acquireRead() -> optional<SlotRef>]; "returns
    nothing if no new frame has been produced since the previous read".
    [TripleSwapchain.hpp] is missing from the sources. *)
Definition acquireRead (sc : Swapchain) : option (SlotRef * Swapchain) :=
  match slots_in Ready sc with
  | i :: _ => Some (i, set_state sc i Reading)
  | [] => None
  end.

(** Modelled from the spec: [releaseRead(SlotRef)], "transitions Reading ->
    Free"; releasing a slot that is not [Reading] (double release, release
    of a slot not owned) is the contract violation, [None].
    [TripleSwapchain.hpp] is missing from the sources. *)
Definition releaseRead (i : SlotRef) (sc : Swapchain) : option Swapchain :=
  match state_of sc i with
  | Reading => Some (set_state sc i Free)
  | _ => None
  end.

(** ** Producer and consumer

    Modelled from the spec: the two threads of control of section 5.  The
    producer alternates [acquireWrite] and [commitWrite] of the slot it
    acquired, the consumer alternates [acquireRead] and, when it got a slot,
    [releaseRead] of that slot ("single in-flight write, single in-flight
    read").  [producer] and [consumer] are the slot each side holds.  A step
    of the system is a step of either side, so the reachable states are
    those of every interleaving of the two.  [acquireWrite] and
    [acquireRead] may return any slot the contract allows. *)
Record System : Type := mkSystem {
  chain    : Swapchain;
  producer : option SlotRef;
  consumer : option SlotRef
}.

Inductive step : System -> System -> Prop :=
| step_acquireWrite sc sc' i c :
    acquireWriteAt i sc = Some sc' ->
    step (mkSystem sc None c) (mkSystem sc' (Some i) c)
| step_commitWrite sc sc' i h c :
    commitWrite i h sc = Some sc' ->
    step (mkSystem sc (Some i) c) (mkSystem sc' None c)
| step_acquireRead sc sc' i p :
    acquireReadAt i sc = Some sc' ->
    step (mkSystem sc p None) (mkSystem sc' p (Some i))
| step_acquireRead_none sc p :
    slots_in Ready sc = [] ->
    step (mkSystem sc p None) (mkSystem sc p None)
| step_releaseRead sc sc' i p :
    releaseRead i sc = Some sc' ->
    step (mkSystem sc p (Some i)) (mkSystem sc' p None).

Definition initial (s : System) : Prop :=
  exists h0 h1 h2, s = mkSystem (create h0 h1 h2) None None.

Definition reachable (s : System) : Prop :=
  exists s0, initial s0 /\ rtc step s0 s.

(** The property of section 8: the slot sets of [Writing], [Reading] and
    [Ready] are pairwise disjoint, each has at most one element, and the
    four counts add up to 3. *)
Definition disjoint_slots (a b : SlotState) (sc : Swapchain) : Prop :=
  forall i, ~ (In i (slots_in a sc) /\ In i (slots_in b sc)).

Record slot_invariant (sc : Swapchain) : Prop := mkSlotInvariant {
  inv_writing_reading : disjoint_slots Writing Reading sc;
  inv_writing_ready   : disjoint_slots Writing Ready sc;
  inv_reading_ready   : disjoint_slots Reading Ready sc;
  inv_one_writing     : (count Writing sc <= 1)%nat;
  inv_one_reading     : (count Reading sc <= 1)%nat;
  inv_one_ready       : (count Ready sc <= 1)%nat;
  inv_total           :
    (count Free sc + count Writing sc + count Reading sc + count Ready sc
     = 3)%nat
}.

(** What the two sides hold is what the slot states say. *)
Definition coupled (s : System) : Prop :=
  (forall i, state_of (chain s) i = Writing <-> producer s = Some i) /\
  (forall i, state_of (chain s) i = Reading <-> consumer s = Some i) /\
  (count Ready (chain s) <= 1)%nat.

End Chain.

Arguments Slot : clear implicits.
Arguments Swapchain : clear implicits.
Arguments System : clear implicits.

End TripleSwapchain.

(** [using ExSwapchain = TripleSwapchain<ExHandle>]. *)
Definition ExSwapchain : Type := TripleSwapchain.Swapchain ExHandle.

(* ================================================================== *)
(** * glExtra.hpp: the environment *)
(* ================================================================== *)

(** Enumerants of [glad/glad.h] the code passes to the driver.  The header
    is not among the sources; the values are those of the OpenGL registry
    (core and [EXT_external_objects]). *)
Module GL.
Definition GL_TEXTURE_2D : Z := 0x0DE1.
Definition GL_VENDOR : Z := 0x1F00.
Definition GL_RGBA8 : Z := 0x8058.
Definition GL_TEXTURE_TILING_EXT : Z := 0x9580.
Definition GL_NUM_TILING_TYPES_EXT : Z := 0x9582.
Definition GL_TILING_TYPES_EXT : Z := 0x9583.
Definition GL_OPTIMAL_TILING_EXT : Z := 0x9584.
Definition GL_LINEAR_TILING_EXT : Z := 0x9585.
Definition GL_HANDLE_TYPE_OPAQUE_FD_EXT : Z := 0x9586.
Definition GL_NUM_DEVICE_UUIDS_EXT : Z := 0x9596.
Definition GL_DEVICE_UUID_EXT : Z := 0x9597.
Definition GL_UUID_SIZE_EXT : nat := 16.
End GL.
Import GL.

(** Addresses of [QOpenGLContext] and [QOffscreenSurface] objects. *)
Definition Ctx : Type := nat.
Definition Surface : Type := nat.

(** The globals [gladLoadGLLoader] fills in ([int]s used as truth values). *)
Record Glad : Type := mkGlad {
  GLAD_GL_EXT_memory_object : bool;
  GLAD_GL_EXT_semaphore     : bool;
  GLAD_GL_VERSION_4_2       : bool;
  GLAD_GL_ES_VERSION_3_0    : bool
}.

(** Every call that leaves the program: GLAD, Qt's context and surface
    objects, and the OpenGL entry points. *)
Inductive Call : Type :=
| Call_gladLoadGLLoader
| Call_QOpenGLContext_new (c : Ctx)
| Call_QOpenGLContext_create (c : Ctx)
| Call_QOpenGLContext_makeCurrent (c : Ctx) (s : option Surface)
| Call_QOpenGLContext_delete (c : Ctx)
| Call_QOffscreenSurface_new (s : Surface)
| Call_QOffscreenSurface_create (s : Surface)
| Call_QOffscreenSurface_delete (s : Surface)
| Call_glGetIntegerv (pname : Z)
| Call_glGetUnsignedBytei_vEXT (target : Z) (index : Z)
| Call_glGetString (name : Z)
| Call_glGetInternalformativ (target internalformat pname : Z) (bufSize : Z)
| Call_glGetError
| Call_glCreateMemoryObjectsEXT (n : Z)
| Call_glImportMemoryFdEXT (memory : Z) (sz : Z) (handleType : Z) (descriptor : Z)
| Call_glGenTextures (n : Z)
| Call_glBindTexture (target : Z) (texture : Z)
| Call_glTexParameteri (target pname param : Z)
| Call_glTexStorageMem2DEXT (target levels internalFormat w h memory offset : Z)
| Call_glDeleteTextures (n : Z) (texture : Z).

Inductive LogLevel : Type :=
| LOGLEVEL_INFO
| LOGLEVEL_ERROR.

(** What the code can observe of Qt and the driver.  [surfaces] is
    [QOpenGLContext::surface()], the surface a context was last made current
    on; [shares] is [QOpenGLContext::shareContext()]; [next_object] is the
    next address [new] hands out; [calls] is the call log, newest first. *)
Record World : Type := mkWorld {
  current     : option Ctx;
  surfaces    : gmap Ctx Surface;
  shares      : gmap Ctx Ctx;
  next_object : nat;
  glad        : Glad;
  calls       : list Call;
  logs        : list (LogLevel * string)
}.

(** The answers of Qt and of the driver.  Each one may depend on the whole
    world at the time of the call, the call log included, so two calls of
    the same entry point may be answered differently. *)
Record Driver : Type := mkDriver {
  glad_loads       : World -> bool * Glad;
  context_creates  : World -> Ctx -> bool;
  sharing_granted  : World -> Ctx -> bool;
  makes_current    : World -> Ctx -> Surface -> bool;
  device_uuid      : World -> list Byte.byte;
  vendor_string    : World -> string;
  num_tiling_types : World -> Z;
  tiling_types     : World -> nat -> list Z;
  gl_error         : World -> Z;
  memory_object    : World -> Z;
  texture_name     : World -> Z
}.

(** [class GlExtra]: [uuid] is [pImpl->uuid]. *)
Record GlExtra : Type := mkGlExtra {
  uuid             : list Byte.byte;
  inited           : bool;
  m_tiling         : TexTiling;
  m_shared_ctx     : option Ctx;
  m_surface        : option Surface;
  m_use_shared_ctx : bool;
  m_is_low_gl      : bool
}.

(** [GlExtra::GlExtra()]: the member initialisers. *)
Definition GlExtra_new : GlExtra :=
  {| uuid := repeat Byte.x00 GL_UUID_SIZE_EXT;
     inited := false;
     m_tiling := OPTIMAL;
     m_shared_ctx := None;
     m_surface := None;
     m_use_shared_ctx := false;
     m_is_low_gl := false |}.

(** ** A state monad with [break]

    [GlExtra::init] is one [do { ... } while (false)] block left by
    [break]; a computation threads the object and the world and either
    finishes with a value or breaks out. *)
Inductive Flow (A : Type) : Type :=
| Done (a : A)
| Break.
Arguments Done {A} a.
Arguments Break {A}.

Definition M (A : Type) : Type := GlExtra -> World -> Flow A * GlExtra * World.

Definition ret {A} (a : A) : M A := fun g w => (Done a, g, w).

Definition bind {A B} (m : M A) (f : A -> M B) : M B :=
  fun g w =>
    match m g w with
    | (Done a, g', w') => f a g' w'
    | (Break, g', w') => (Break, g', w')
    end.

Definition break {A} : M A := fun g w => (Break, g, w).

Declare Scope gl_scope.
Delimit Scope gl_scope with gl.
Notation "x <- m ;; k" := (bind m (fun x => k))
  (at level 100, m at next level, right associativity) : gl_scope.
Notation "m ;;; k" := (bind m (fun _ => k))
  (at level 100, right associativity) : gl_scope.
Local Open Scope gl_scope.

Definition self {A} (f : GlExtra -> A) : M A := fun g w => (Done (f g), g, w).
Definition update (f : GlExtra -> GlExtra) : M unit :=
  fun g w => (Done tt, f g, w).
Definition observe {A} (f : World -> A) : M A := fun g w => (Done (f w), g, w).
Definition change (f : World -> World) : M unit :=
  fun g w => (Done tt, g, f w).

Definition with_current (c : option Ctx) (w : World) : World :=
  {| current := c; surfaces := surfaces w; shares := shares w;
     next_object := next_object w; glad := glad w; calls := calls w;
     logs := logs w |}.
Definition with_surfaces (m : gmap Ctx Surface) (w : World) : World :=
  {| current := current w; surfaces := m; shares := shares w;
     next_object := next_object w; glad := glad w; calls := calls w;
     logs := logs w |}.
Definition with_shares (m : gmap Ctx Ctx) (w : World) : World :=
  {| current := current w; surfaces := surfaces w; shares := m;
     next_object := next_object w; glad := glad w; calls := calls w;
     logs := logs w |}.
Definition with_next_object (n : nat) (w : World) : World :=
  {| current := current w; surfaces := surfaces w; shares := shares w;
     next_object := n; glad := glad w; calls := calls w; logs := logs w |}.
Definition with_glad (c : Glad) (w : World) : World :=
  {| current := current w; surfaces := surfaces w; shares := shares w;
     next_object := next_object w; glad := c; calls := calls w;
     logs := logs w |}.
Definition with_call (c : Call) (w : World) : World :=
  {| current := current w; surfaces := surfaces w; shares := shares w;
     next_object := next_object w; glad := glad w; calls := c :: calls w;
     logs := logs w |}.
Definition with_log (l : LogLevel) (msg : string) (w : World) : World :=
  {| current := current w; surfaces := surfaces w; shares := shares w;
     next_object := next_object w; glad := glad w; calls := calls w;
     logs := (l, msg) :: logs w |}.

(** An external call: the oracle answers on the world before the call, then
    the call is logged. *)
Definition call {A} (c : Call) (answer : World -> A) : M A :=
  fun g w => (Done (answer w), g, with_call c w).

Definition LOG_INFO (msg : string) : M unit := change (with_log LOGLEVEL_INFO msg).
Definition LOG_ERROR (msg : string) : M unit := change (with_log LOGLEVEL_ERROR msg).

(* ================================================================== *)
(** * glExtra.hpp: Qt, GLAD and the helpers of the anonymous namespace *)
(* ================================================================== *)

Section WithDriver.

Variable D : Driver.

(** [gladLoadGLLoader((GLADloadproc)get_proc_address)]: resolves the
    function table against the current context and sets the globals. *)
Definition gladLoadGLLoader : M bool :=
  r <- call Call_gladLoadGLLoader (glad_loads D) ;;
  change (with_glad r.2) ;;;
  ret r.1.

Definition currentContext : M (option Ctx) := observe current.

(** [new QOpenGLContext()]: a fresh address. *)
Definition new_QOpenGLContext : M Ctx :=
  fun g w =>
    let c := next_object w in
    (Done c, g, with_call (Call_QOpenGLContext_new c) (with_next_object (S c) w)).

Definition new_QOffscreenSurface : M Surface :=
  fun g w =>
    let s := next_object w in
    (Done s, g, with_call (Call_QOffscreenSurface_new s) (with_next_object (S s) w)).

(** [ctx->setShareContext(share); ctx->create()]: on success
    [shareContext()] is [share] when the platform supports the sharing. *)
Definition create (c : Ctx) (share : Ctx) : M bool :=
  ok <- call (Call_QOpenGLContext_create c) (fun w => context_creates D w c) ;;
  if ok : bool then
    granted <- observe (fun w => sharing_granted D w c) ;;
    (if granted : bool
     then change (fun w => with_shares (<[c := share]> (shares w)) w)
     else ret tt) ;;;
    ret true
  else ret false.

Definition surface (c : Ctx) : M (option Surface) :=
  observe (fun w => surfaces w !! c).

Definition shareContext (c : Ctx) : M (option Ctx) :=
  observe (fun w => shares w !! c).

Definition doneCurrent (c : Ctx) : M unit :=
  change (fun w => with_current None (with_surfaces (delete c (surfaces w)) w)).

(** [c->makeCurrent(s)]: a null surface means [doneCurrent()] and [true];
    otherwise the platform decides, and on success [c] is the current
    context and [s] its surface. *)
Definition makeCurrent (c : Ctx) (s : option Surface) : M bool :=
  match s with
  | None =>
      call (Call_QOpenGLContext_makeCurrent c None) (fun _ => tt) ;;;
      doneCurrent c ;;;
      ret true
  | Some s' =>
      ok <- call (Call_QOpenGLContext_makeCurrent c s)
                 (fun w => makes_current D w c s') ;;
      if ok : bool then
        change (fun w =>
          with_current (Some c) (with_surfaces (<[c := s']> (surfaces w)) w)) ;;;
        ret true
      else ret false
  end.

(** [delete ctx]: a context that is current is released first. *)
Definition delete_QOpenGLContext (c : Ctx) : M unit :=
  call (Call_QOpenGLContext_delete c) (fun _ => tt) ;;;
  cur <- currentContext ;;
  (if decide (cur = Some c) then doneCurrent c else ret tt) ;;;
  change (fun w =>
    with_shares (delete c (shares w)) (with_surfaces (delete c (surfaces w)) w)).

Definition delete_QOffscreenSurface (s : Surface) : M unit :=
  call (Call_QOffscreenSurface_delete s) (fun _ => tt).

(** [CheckGlError], behind [CHECK_GL_ERROR_IF_DEBUG()]. *)
Definition CheckGlError : M unit :=
  err <- call Call_glGetError (gl_error D) ;;
  if err =? 0 then ret tt else LOG_ERROR "%s(%d) at %s".

(** [getUUID]: the driver writes into a zeroed buffer of
    [GL_UUID_SIZE_EXT] bytes. *)
Definition getUUID : M (list Byte.byte) :=
  call (Call_glGetIntegerv GL_NUM_DEVICE_UUIDS_EXT) (fun _ => tt) ;;;
  written <- call (Call_glGetUnsignedBytei_vEXT GL_DEVICE_UUID_EXT 0)
                  (device_uuid D) ;;
  ret (take GL_UUID_SIZE_EXT (written ++ repeat Byte.x00 GL_UUID_SIZE_EXT)).

End WithDriver.

(** [std::string::find]: position of the first occurrence, [None] for
    [npos]. *)
Fixpoint find (needle s : string) : option nat :=
  if String.prefix needle s then Some 0%nat
  else match s with
       | EmptyString => None
       | String _ s' => S <$> find needle s'
       end.

Definition set_inited (b : bool) (g : GlExtra) : GlExtra :=
  {| uuid := uuid g; inited := b; m_tiling := m_tiling g;
     m_shared_ctx := m_shared_ctx g; m_surface := m_surface g;
     m_use_shared_ctx := m_use_shared_ctx g; m_is_low_gl := m_is_low_gl g |}.
Definition set_tiling (t : TexTiling) (g : GlExtra) : GlExtra :=
  {| uuid := uuid g; inited := inited g; m_tiling := t;
     m_shared_ctx := m_shared_ctx g; m_surface := m_surface g;
     m_use_shared_ctx := m_use_shared_ctx g; m_is_low_gl := m_is_low_gl g |}.
Definition set_shared (c : Ctx) (s : Surface) (g : GlExtra) : GlExtra :=
  {| uuid := uuid g; inited := inited g; m_tiling := m_tiling g;
     m_shared_ctx := Some c; m_surface := Some s;
     m_use_shared_ctx := true; m_is_low_gl := m_is_low_gl g |}.
Definition set_is_low_gl (b : bool) (g : GlExtra) : GlExtra :=
  {| uuid := uuid g; inited := inited g; m_tiling := m_tiling g;
     m_shared_ctx := m_shared_ctx g; m_surface := m_surface g;
     m_use_shared_ctx := m_use_shared_ctx g; m_is_low_gl := b |}.
Definition set_uuid (u : list Byte.byte) (g : GlExtra) : GlExtra :=
  {| uuid := u; inited := inited g; m_tiling := m_tiling g;
     m_shared_ctx := m_shared_ctx g; m_surface := m_surface g;
     m_use_shared_ctx := m_use_shared_ctx g; m_is_low_gl := m_is_low_gl g |}.

(* ================================================================== *)
(** * glExtra.hpp: [GlExtra::init] *)
(* ================================================================== *)

Section GlExtra.

Variable D : Driver.

(** Lines 119-162: the attempt to obtain a shared GL 4.2 context.  The
    result is the new value of the local [is_low_gl]. *)
Definition shared_context_attempt : M bool :=
  current <- currentContext ;;
  match current with
  | None => ret true
  | Some current =>
      ctx <- new_QOpenGLContext ;;
      created <- create D ctx current ;;
      if created : bool then
        LOG_INFO "gl: Shared context created: GL %d.%d" ;;;
        surface' <- new_QOffscreenSurface ;;
        call (Call_QOffscreenSurface_create surface') (fun _ => tt) ;;;
        switched <- makeCurrent D ctx (Some surface') ;;
        is_low_gl <-
          (if switched : bool then
             reloaded <- gladLoadGLLoader D ;;
             is_low_gl <-
               (if reloaded : bool then
                  LOG_INFO "gl: GLAD reloaded with GL %d.%d" ;;;
                  update (set_shared ctx surface') ;;;
                  ret false
                else
                  LOG_ERROR "gl: Failed to reload GLAD on shared context" ;;;
                  ret true) ;;
             back <- surface current ;;
             makeCurrent D current back ;;;
             ret is_low_gl
           else
             LOG_ERROR "gl: Failed to makeCurrent on shared context" ;;;
             ret true) ;;
        use <- self m_use_shared_ctx ;;
        (if negb use then
           delete_QOffscreenSurface surface' ;;;
           delete_QOpenGLContext ctx
         else ret tt) ;;;
        ret is_low_gl
      else
        LOG_INFO "gl: Shared GL 4.2 context not available, using fallback" ;;;
        delete_QOpenGLContext ctx ;;;
        ret true
  end.

(** Lines 190-196: the loop over the tilings the driver wrote. *)
Definition scan_tilings (tex_tilings : list Z) : bool * bool :=
  foldl (fun flags tiling =>
           if tiling =? GL_OPTIMAL_TILING_EXT then (true, flags.2)
           else if tiling =? GL_LINEAR_TILING_EXT then (flags.1, true)
           else flags)
        (false, false) tex_tilings.

(** Lines 172-186: the two queries.  [num] is clamped to 2, the vector is
    resized to [num] zeros and the driver writes into it. *)
Definition query_tilings : M (list Z) :=
  num <- call (Call_glGetInternalformativ GL_TEXTURE_2D GL_RGBA8
                 GL_NUM_TILING_TYPES_EXT 1) (num_tiling_types D) ;;
  if num <=? 0 then
    LOG_ERROR "gl: can't get texture tiling support info" ;;;
    break
  else
    let num := Z.min num 2 in
    let n := Z.to_nat num in
    written <- call (Call_glGetInternalformativ GL_TEXTURE_2D GL_RGBA8
                       GL_TILING_TYPES_EXT num)
                    (fun w => tiling_types D w n) ;;
    CheckGlError D ;;;
    ret (take n (written ++ repeat 0 n)).

(** Lines 171-213. *)
Definition negotiate_tiling (gl_verdor_name : string) : M unit :=
  tex_tilings <- query_tilings ;;
  let support_optimal := (scan_tilings tex_tilings).1 in
  let support_linear := (scan_tilings tex_tilings).2 in
  if negb support_optimal && negb support_linear then
    LOG_ERROR "gl: no supported tiling mode" ;;;
    break
  else
    (if support_optimal then update (set_tiling OPTIMAL)
     else if support_linear then update (set_tiling LINEAR)
     else ret tt) ;;;
    (if support_linear && bool_decide (is_Some (find "AMD" gl_verdor_name))
     then update (set_tiling LINEAR)
     else ret tt).

(** Lines 102-221: the body of [do { ... } while (false)]. *)
Definition init_block : M unit :=
  done <- self inited ;;
  if done : bool then break
  else
    loaded <- gladLoadGLLoader D ;;
    if negb loaded then
      LOG_ERROR "gl: Failed to initialize GLAD" ;;;
      break
    else
      LOG_INFO "gl: OpenGL version %d.%d loaded" ;;;
      caps <- observe glad ;;
      if negb (GLAD_GL_EXT_memory_object caps && GLAD_GL_EXT_semaphore caps)
      then
        LOG_ERROR "gl: EXT_memory_object not available" ;;;
        break
      else
        let is_low_gl :=
          negb (GLAD_GL_VERSION_4_2 caps) && negb (GLAD_GL_ES_VERSION_3_0 caps) in
        is_low_gl <-
          (if is_low_gl then
             LOG_INFO "gl: Context is GL %d.%d, attempting shared GL 4.2 context" ;;;
             shared_context_attempt
           else ret is_low_gl) ;;
        update (set_is_low_gl is_low_gl) ;;;
        id <- getUUID D ;;
        update (set_uuid id) ;;;
        gl_verdor_name <- call (Call_glGetString GL_VENDOR) (vendor_string D) ;;
        LOG_INFO "gl: OpenGL vendor string: %s" ;;;
        (if negb is_low_gl then negotiate_tiling gl_verdor_name else ret tt) ;;;
        tiling <- self m_tiling ;;
        (match tiling with
         | OPTIMAL => LOG_INFO "gl: external tex using optimal tiling"
         | LINEAR => LOG_INFO "gl: external tex using linear tiling"
         end) ;;;
        update (set_inited true).

(** Lines 224-231: back to the share context when the shared context is
    still the current one.  [m_use_shared_ctx] is only ever set together
    with [m_shared_ctx], so the branch that would dereference a null
    [m_shared_ctx] does nothing here. *)
Definition init_restore : M unit :=
  use <- self m_use_shared_ctx ;;
  if use : bool then
    current <- currentContext ;;
    shared <- self m_shared_ctx ;;
    if decide (current = shared) then
      match shared with
      | Some shared_ctx =>
          share <- shareContext shared_ctx ;;
          match share with
          | Some share =>
              s <- surface share ;;
              makeCurrent D share s ;;;
              ret tt
          | None => ret tt
          end
      | None => ret tt
      end
    else ret tt
  else ret tt.

(** Runs a block that may [break] and goes on after it. *)
Definition do_while_false (block : M unit) : M unit :=
  fun g w =>
    match block g w with
    | (_, g', w') => (Done tt, g', w')
    end.

(** [bool GlExtra::init(get_proc_address)]. *)
Definition init : M bool :=
  do_while_false init_block ;;;
  init_restore ;;;
  self inited.

(** [TexTiling GlExtra::tiling() const]. *)
Definition tiling (g : GlExtra) : TexTiling := m_tiling g.

(* ================================================================== *)
(** * glExtra.hpp: [GlExtra::genExTexture] and [GlExtra::deleteTexture] *)
(* ================================================================== *)

Definition tiling_param (t : TexTiling) : Z :=
  match t with
  | OPTIMAL => GL_OPTIMAL_TILING_EXT
  | LINEAR => GL_LINEAR_TILING_EXT
  end.

(** Lines 250-254: the switch to the shared context; the result is
    [(prev_ctx, prev_surface)]. *)
Definition enter_shared : M (option Ctx * option Surface) :=
  use <- self m_use_shared_ctx ;;
  shared <- self m_shared_ctx ;;
  match shared with
  | Some shared_ctx =>
      if use : bool then
        prev_ctx <- currentContext ;;
        prev_surface <- match prev_ctx with
                        | Some c => surface c
                        | None => ret None
                        end ;;
        s <- self m_surface ;;
        makeCurrent D shared_ctx s ;;;
        ret (prev_ctx, prev_surface)
      else ret (None, None)
  | None => ret (None, None)
  end.

(** [uint GlExtra::genExTexture(ExHandle& handle)]: the result is the
    returned name and the handle as the call leaves it. *)
Definition genExTexture (handle : ExHandle) : M (Z * ExHandle) :=
  if (fd handle <? 0) || (size handle =? 0) then
    LOG_ERROR "gl: invalid ExHandle (fd=%d, size=%zu)" ;;;
    ret (0, handle)
  else
    prev <- enter_shared ;;
    memobject <- call (Call_glCreateMemoryObjectsEXT 1) (memory_object D) ;;
    call (Call_glImportMemoryFdEXT memobject (size handle)
            GL_HANDLE_TYPE_OPAQUE_FD_EXT (fd handle)) (fun _ => tt) ;;;
    low <- self m_is_low_gl ;;
    (if low : bool then
       call Call_glGetError (gl_error D) ;;; ret tt
     else CheckGlError D) ;;;
    tex <- call (Call_glGenTextures 1) (texture_name D) ;;
    call (Call_glBindTexture GL_TEXTURE_2D tex) (fun _ => tt) ;;;
    (if negb low then
       t <- self m_tiling ;;
       call (Call_glTexParameteri GL_TEXTURE_2D GL_TEXTURE_TILING_EXT
               (tiling_param t)) (fun _ => tt) ;;;
       CheckGlError D
     else ret tt) ;;;
    call (Call_glTexStorageMem2DEXT GL_TEXTURE_2D 1 GL_RGBA8
            (width handle) (height handle) memobject 0) (fun _ => tt) ;;;
    CheckGlError D ;;;
    call (Call_glBindTexture GL_TEXTURE_2D 0) (fun _ => tt) ;;;
    let handle := set_fd handle (-1) in
    (match prev with
     | (Some prev_ctx, Some prev_surface) =>
         makeCurrent D prev_ctx (Some prev_surface) ;;; ret tt
     | _ => ret tt
     end) ;;;
    ret (tex, handle).

(** [void GlExtra::deleteTexture(uint tex)]. *)
Definition deleteTexture (tex : Z) : M unit :=
  call (Call_glDeleteTextures 1 tex) (fun _ => tt) ;;;
  CheckGlError D.

End GlExtra.

(* ================================================================== *)
(** * WPUserProperties.hpp *)
(* ================================================================== *)

(** [nlohmann::json].  A floating-point number is kept as the bit pattern
    of its [double]; the code never looks inside a number.  The
    [discarded] kind only exists inside parser callbacks. *)
Inductive json : Type :=
| JNull
| JBoolean (b : bool)
| JInteger (n : Z)
| JUnsigned (n : Z)
| JFloat (bits : Z)
| JString (s : string)
| JBinary (bytes : list Byte.byte)
| JArray (items : list json)
| JObject (members : gmap string json).

(** A call either returns or throws [nlohmann::json::type_error]. *)
Inductive result (A : Type) : Type :=
| Returns (a : A)
| Throws.
Arguments Returns {A} a.
Arguments Throws {A}.

Definition and_then {A B} (r : result A) (k : A -> result B) : result B :=
  match r with
  | Returns a => k a
  | Throws => Throws
  end.

Declare Scope json_scope.
Delimit Scope json_scope with json.
Notation "x <~ r ;; k" := (and_then r (fun x => k))
  (at level 100, r at next level, right associativity) : json_scope.

Definition is_object (j : json) : bool :=
  match j with JObject _ => true | _ => false end.
Definition is_string (j : json) : bool :=
  match j with JString _ => true | _ => false end.
Definition is_boolean (j : json) : bool :=
  match j with JBoolean _ => true | _ => false end.

(** [j[key]] on a [const] value, used after [contains]. *)
Definition at_key (j : json) (key : string) : option json :=
  match j with
  | JObject members => members !! key
  | _ => None
  end.

(** [j.contains(key)]: [false] on anything but an object. *)
Definition contains (j : json) (key : string) : bool :=
  bool_decide (is_Some (at_key j key)).

(** [j.get<std::string>()]: throws on anything but a string. *)
Definition get_string (j : json) : result string :=
  match j with
  | JString s => Returns s
  | _ => Throws
  end.

Module WPUserProperties.

Section Properties.

(** [nlohmann::json::dump()], the serialiser of the JSON library. *)
Variable dump : json -> string.

Record WPUserProperties : Type := mkWPUserProperties {
  m_properties : gmap string json
}.

Definition HasProperty (this : WPUserProperties) (name : string) : bool :=
  bool_decide (is_Some (m_properties this !! name)).

Definition GetProperty (this : WPUserProperties) (name : string)
  : option json :=
  m_properties this !! name.

Definition Empty (this : WPUserProperties) : bool :=
  bool_decide (m_properties this = ∅).

(** [if (json.contains("value")) return json["value"]; return json;] *)
Definition value_or_original (j : json) : json :=
  match at_key j "value" with
  | Some v => v
  | None => j
  end.

(** Lines 70-85: [Some (propName, condition)], or [None] for the
    "unknown format" branch. *)
Definition reference_of (userField : json)
  : result (option (string * string)) :=
  (if is_string userField then
     propName <~ get_string userField ;;
     Returns (Some (propName, EmptyString))
   else if is_object userField && contains userField "name" then
     propName <~ get_string (default JNull (at_key userField "name")) ;;
     condition <~ (if contains userField "condition"
                   then get_string (default JNull (at_key userField "condition"))
                   else Returns EmptyString) ;;
     Returns (Some (propName, condition))
   else Returns None)%json.

(** Lines 100-102. *)
Definition propStr (propValue : json) : string :=
  match propValue with
  | JString s => s
  | _ => dump propValue
  end.

Definition ResolveValue (this : WPUserProperties) (j : json) : result json :=
  (if negb (is_object j) then Returns j
   else if negb (contains j "user") then Returns j
   else
     let userField := default JNull (at_key j "user") in
     reference <~ reference_of userField ;;
     match reference with
     | None => Returns (value_or_original j)
     | Some (propName, condition) =>
         match GetProperty this propName with
         | None => Returns (value_or_original j)
         | Some propValue =>
             if negb (String.eqb condition EmptyString) then
               let matches := String.eqb (propStr propValue) condition in
               if contains j "value"
                  && is_boolean (default JNull (at_key j "value"))
               then Returns (JBoolean matches)
               else Returns propValue
             else Returns propValue
         end
     end)%json.

End Properties.

End WPUserProperties.

(* ================================================================== *)
(** * Concrete inputs *)
(* ================================================================== *)

(** Two exported frames. *)
Definition frame1 : ExHandle :=
  {| fd := 5; width := 1920; height := 1080; size := 8294400; m_id := 1 |}.
Definition frame2 : ExHandle :=
  {| fd := 6; width := 1920; height := 1080; size := 8294400; m_id := 2 |}.

(** The chain after the producer committed [frame1], the consumer acquired
    it, and the producer committed [frame2] into the next slot. *)
Definition swapchain_example : TripleSwapchain.System ExHandle :=
  TripleSwapchain.mkSystem
    (TripleSwapchain.mkSwapchain
       (TripleSwapchain.mkSlot TripleSwapchain.Reading frame1)
       (TripleSwapchain.mkSlot TripleSwapchain.Ready frame2)
       (TripleSwapchain.mkSlot TripleSwapchain.Free ExHandle_default))
    None (Some TripleSwapchain.Slot0).

(* ================================================================== *)
(** * Vocabulary of the statements about [GlExtra] *)
(* ================================================================== *)

(** [post m g w Q]: running [m] on the object [g] in the world [w] ends in a
    flow, an object and a world that satisfy [Q]. *)
Definition post {A : Type} (m : M A) (g : GlExtra) (w : World)
    (Q : Flow A -> GlExtra -> World -> Prop) : Prop :=
  Q (m g w).1.1 (m g w).1.2 (m g w).2.

Definition releases_texture (c : Call) : bool :=
  match c with
  | Call_glDeleteTextures _ _ => true
  | _ => false
  end.

Definition is_tiling_query (c : Call) : bool :=
  match c with
  | Call_glGetInternalformativ _ _ _ _ => true
  | _ => false
  end.

(** The log of [w1] is the log of [w] followed by calls on which [P] is
    [false]. *)
Definition extends_without (P : Call -> bool) (w w1 : World) : Prop :=
  exists new, calls w1 = new ++ calls w /\ forall c, c ∈ new -> P c = false.

(** GLAD loads in [w], but one of the two extensions is absent. *)
Definition extensions_missing (D : Driver) (w : World) : Prop :=
  GLAD_GL_EXT_memory_object (glad_loads D w).2
  && GLAD_GL_EXT_semaphore (glad_loads D w).2 = false.

(** GLAD loads in [w] with both extensions, and the context is neither
    GL 4.2 nor GLES 3.0. *)
Definition low_context (D : Driver) (w : World) : Prop :=
  (glad_loads D w).1 = true /\
  GLAD_GL_EXT_memory_object (glad_loads D w).2 = true /\
  GLAD_GL_EXT_semaphore (glad_loads D w).2 = true /\
  GLAD_GL_VERSION_4_2 (glad_loads D w).2 = false /\
  GLAD_GL_ES_VERSION_3_0 (glad_loads D w).2 = false.

(** No usable shared context: nothing is current, or the new context (it
    gets the address [next_object w]) cannot be created, cannot be made
    current, or GLAD cannot be reloaded while it is current. *)
Definition no_shared_context (D : Driver) (w : World) : Prop :=
  current w = None \/
  (forall w1 c, context_creates D w1 c = false) \/
  (forall w1 s, makes_current D w1 (next_object w) s = false) \/
  (forall w1, current w1 = Some (next_object w) -> (glad_loads D w1).1 = false).

(** A driver that always reports [k] tiling types, writes the first
    [bufSize] entries of [ts], and has the vendor string [v]. *)
Definition reports (D : Driver) (k : Z) (ts : list Z) (v : string) : Prop :=
  (forall w, num_tiling_types D w = k) /\
  (forall w n, tiling_types D w n = take n ts) /\
  (forall w, vendor_string D w = v).

(** What such a driver leaves in [tex_tilings]: at most two entries. *)
Definition tilings_read (k : Z) (ts : list Z) : list Z :=
  let n := Z.to_nat (Z.min k 2) in take n (ts ++ repeat 0 n).

(** The driver never reports a tiling the code knows. *)
Definition no_tiling (D : Driver) : Prop :=
  (forall w, num_tiling_types D w <= 0) \/
  (forall w n, (GL_OPTIMAL_TILING_EXT ∉ tiling_types D w n) /\
               (GL_LINEAR_TILING_EXT ∉ tiling_types D w n)).

Definition select_tiling (seen : list Z) (vendor : string) : TexTiling :=
  if bool_decide (GL_LINEAR_TILING_EXT ∈ seen)
     && bool_decide (is_Some (find "AMD" vendor)) then LINEAR
  else if bool_decide (GL_OPTIMAL_TILING_EXT ∈ seen) then OPTIMAL
  else LINEAR.

Definition has_marker (vendor : string) : Prop :=
  exists a b, vendor = String.append a (String.append "AMD" b).

(** ** Concrete worlds and drivers *)

Definition no_glad : Glad :=
  {| GLAD_GL_EXT_memory_object := false; GLAD_GL_EXT_semaphore := false;
     GLAD_GL_VERSION_4_2 := false; GLAD_GL_ES_VERSION_3_0 := false |}.

(** Nothing is current and nothing was called yet. *)
Definition world0 : World :=
  {| current := None; surfaces := ∅; shares := ∅; next_object := 0%nat;
     glad := no_glad; calls := []; logs := [] |}.

(** The shell's context 0 is current on its surface 1. *)
Definition world_plasma : World :=
  {| current := Some 0%nat; surfaces := {[ 0%nat := 1%nat ]}; shares := ∅;
     next_object := 2%nat; glad := no_glad; calls := []; logs := [] |}.

(** A driver whose answers do not change: [caps] is what GLAD finds in a
    world, [creates] whether contexts can be created, [err] what
    [glGetError] returns.  Memory objects are named 3, textures 7. *)
Definition constant_driver (caps : World -> bool * Glad) (creates : bool)
    (vendor : string) (tilings : list Z) (err : Z) : Driver :=
  {| glad_loads := caps;
     context_creates := fun _ _ => creates;
     sharing_granted := fun _ _ => true;
     makes_current := fun _ _ _ => true;
     device_uuid := fun _ => [];
     vendor_string := fun _ => vendor;
     num_tiling_types := fun _ => Z.of_nat (length tilings);
     tiling_types := fun _ n => take n tilings;
     gl_error := fun _ => err;
     memory_object := fun _ => 3;
     texture_name := fun _ => 7 |}.

Definition desktop_glad : Glad :=
  {| GLAD_GL_EXT_memory_object := true; GLAD_GL_EXT_semaphore := true;
     GLAD_GL_VERSION_4_2 := true; GLAD_GL_ES_VERSION_3_0 := false |}.

Definition low_glad : Glad :=
  {| GLAD_GL_EXT_memory_object := true; GLAD_GL_EXT_semaphore := true;
     GLAD_GL_VERSION_4_2 := false; GLAD_GL_ES_VERSION_3_0 := false |}.

Definition both_tilings : list Z :=
  [GL_OPTIMAL_TILING_EXT; GL_LINEAR_TILING_EXT].

(** A GL 4.2 desktop driver with both tilings. *)
Definition driver_desktop : Driver :=
  constant_driver (fun _ => (true, desktop_glad)) true "NVIDIA Corporation"
    both_tilings 0.

(** The same with the vendor string of the defective vendor. *)
Definition driver_amd : Driver :=
  constant_driver (fun _ => (true, desktop_glad)) true "AMD" both_tilings 0.

(** A driver that reports three tilings, optimal tiling last; the first is
    one the code does not know. *)
Definition driver_three_tilings : Driver :=
  constant_driver (fun _ => (true, desktop_glad)) true "NVIDIA Corporation"
    [1; GL_LINEAR_TILING_EXT; GL_OPTIMAL_TILING_EXT] 0.


(** Neither extension is exposed. *)
Definition driver_no_extensions : Driver :=
  constant_driver (fun _ => (true, no_glad)) true "NVIDIA Corporation"
    both_tilings 0.

(** A GL 3.2 context on which no further context can be created. *)
Definition driver_low : Driver :=
  constant_driver (fun _ => (true, low_glad)) false "Intel" both_tilings 0.

(** A GL 3.2 shell context (address 0); any other context is GL 4.2. *)
Definition driver_low_shared : Driver :=
  constant_driver
    (fun w => (true, if decide (current w = Some 0%nat) then low_glad
                     else desktop_glad))
    true "Intel" both_tilings 0.

(** User properties and values that refer to them. *)
Definition example_properties : WPUserProperties.WPUserProperties :=
  WPUserProperties.mkWPUserProperties {[ "schemecolor" := JString "red" ]}.

Definition plain_reference : json :=
  JObject {[ "user" := JString "schemecolor"; "value" := JString "blue" ]}.

Definition conditional_reference (default : json) : json :=
  JObject {[ "user" := JObject {[ "condition" := JString "red";
                                   "name" := JString "schemecolor" ]};
             "value" := default ]}.

(* ================================================================== *)
(** * glExtra.hpp: the error names and the destructor *)
(* ================================================================== *)

(** The error enumerants of [glad/glad.h], with the values of the OpenGL
    registry. *)
Module GLError.
Definition GL_NO_ERROR : Z := 0.
Definition GL_INVALID_ENUM : Z := 0x0500.
Definition GL_INVALID_VALUE : Z := 0x0501.
Definition GL_INVALID_OPERATION : Z := 0x0502.
Definition GL_OUT_OF_MEMORY : Z := 0x0505.
Definition GL_INVALID_FRAMEBUFFER_OPERATION : Z := 0x0506.
End GLError.

(** [GLErrorToStr]: the [switch] over the error code. *)
Definition GLErrorToStr (err : Z) : string :=
  if err =? GLError.GL_NO_ERROR then "GL_NO_ERROR"
  else if err =? GLError.GL_INVALID_ENUM then "GL_INVALID_ENUM"
  else if err =? GLError.GL_INVALID_VALUE then "GL_INVALID_VALUE"
  else if err =? GLError.GL_INVALID_OPERATION then "GL_INVALID_OPERATION"
  else if err =? GLError.GL_OUT_OF_MEMORY then "GL_OUT_OF_MEMORY"
  else if err =? GLError.GL_INVALID_FRAMEBUFFER_OPERATION
       then "GL_INVALID_FRAMEBUFFER_OPERATION"
  else "Unknown GLError".

Definition known_errors : list Z :=
  [GLError.GL_NO_ERROR; GLError.GL_INVALID_ENUM; GLError.GL_INVALID_VALUE;
   GLError.GL_INVALID_OPERATION; GLError.GL_OUT_OF_MEMORY;
   GLError.GL_INVALID_FRAMEBUFFER_OPERATION].

(** [GlExtra::~GlExtra()]: [delete m_surface; delete m_shared_ctx;], where
    deleting a null pointer does nothing. *)
Definition GlExtra_destructor : M unit :=
  (s <- self m_surface ;;
   (match s with
    | Some s => delete_QOffscreenSurface s
    | None => ret tt
    end) ;;;
   c <- self m_shared_ctx ;;
   match c with
   | Some c => delete_QOpenGLContext c
   | None => ret tt
   end)%gl.

(** ** Kinds of calls *)

(** [new] and [delete] of a Qt object. *)
Definition allocates (c : Call) : bool :=
  match c with
  | Call_QOpenGLContext_new _ | Call_QOpenGLContext_delete _
  | Call_QOffscreenSurface_new _ | Call_QOffscreenSurface_delete _ => true
  | _ => false
  end.

(** The [new] and [delete] calls of a world's log, newest first. *)
Definition allocations (w : World) : list Call :=
  List.filter allocates (calls w).

(** A call on a Qt object. *)
Definition is_qt_call (c : Call) : bool :=
  match c with
  | Call_QOpenGLContext_new _ | Call_QOpenGLContext_create _
  | Call_QOpenGLContext_makeCurrent _ _ | Call_QOpenGLContext_delete _
  | Call_QOffscreenSurface_new _ | Call_QOffscreenSurface_create _
  | Call_QOffscreenSurface_delete _ => true
  | _ => false
  end.

(** An OpenGL entry point ([gladLoadGLLoader] and Qt are not). *)
Definition is_gl_call (c : Call) : bool :=
  match c with
  | Call_gladLoadGLLoader => false
  | _ => negb (is_qt_call c)
  end.

(** Anything but [makeCurrent]. *)
Definition not_makeCurrent (c : Call) : bool :=
  match c with
  | Call_QOpenGLContext_makeCurrent _ _ => false
  | _ => true
  end.

Definition is_storage (c : Call) : bool :=
  match c with
  | Call_glTexStorageMem2DEXT _ _ _ _ _ _ _ => true
  | _ => false
  end.

Definition is_tex_parameter (c : Call) : bool :=
  match c with
  | Call_glTexParameteri _ _ _ => true
  | _ => false
  end.

(** A platform on which the shared context can be set up: contexts can be
    created, the new context (at the address [next_object w]) can be made
    current, and GLAD loads while it is current. *)
Definition shared_context_usable (D : Driver) (w : World) : Prop :=
  (forall w1 c, context_creates D w1 c = true) /\
  (forall w1 s, makes_current D w1 (next_object w) s = true) /\
  (forall w1, current w1 = Some (next_object w) -> (glad_loads D w1).1 = true).

(** GLAD loads in [w] with both extensions on a GL 4.2 or GLES 3.0
    context. *)
Definition capable_context (D : Driver) (w : World) : Prop :=
  (glad_loads D w).1 = true /\
  GLAD_GL_EXT_memory_object (glad_loads D w).2 = true /\
  GLAD_GL_EXT_semaphore (glad_loads D w).2 = true /\
  GLAD_GL_VERSION_4_2 (glad_loads D w).2
  || GLAD_GL_ES_VERSION_3_0 (glad_loads D w).2 = true.

(* ================================================================== *)
(** * WPUserProperties.hpp: loading and the scope guard *)
(* ================================================================== *)

Module ProjectJson.

Import WPUserProperties.

Section Load.

(** [nlohmann::json::parse]: [None] when it throws [parse_error].  A
    parsed document holds valid UTF-8 only, so serialising its values for
    the log does not throw. *)
Variable parse : string -> option json.

(** The state of one load: the table and the log lines written. *)
Definition Loaded : Type := gmap string json * list (LogLevel * string).

(** Lines 24-30, the body of the loop for one member of "properties". *)
Definition load_property (name : string) (prop : json) (acc : Loaded)
  : Loaded :=
  match at_key prop "value" with
  | Some v =>
      (<[name := v]> acc.1,
       (LOGLEVEL_INFO, "User property: %s = %s") :: acc.2)
  | None => acc
  end.

(** [bool LoadFromProjectJson(const std::string&)]: the returned flag, the
    object afterwards, and the log.  The loop runs over the members of an
    object; over a null or an empty array it does not run; on any other
    value the first [it.key()] throws [invalid_iterator], which the [catch]
    turns into [false]. *)
Definition LoadFromProjectJson (this : WPUserProperties)
    (projectJsonContent : string)
  : bool * WPUserProperties * list (LogLevel * string) :=
  let failed :=
    (false, this,
     [(LOGLEVEL_ERROR, "Failed to parse project.json for user properties: %s")])
  in
  match parse projectJsonContent with
  | None => failed
  | Some doc =>
      if contains doc "general"
         && contains (default JNull (at_key doc "general")) "properties"
      then
        let props :=
          default JNull
            (at_key (default JNull (at_key doc "general")) "properties") in
        match props with
        | JObject members =>
            let r := map_fold load_property (m_properties this, []) members in
            (true, mkWPUserProperties r.1, r.2)
        | JNull | JArray [] => (true, this, [])
        | _ => failed
        end
      else (false, this, [])
  end.

End Load.

(** The value at ["general"]["properties"] of a document. *)
Definition properties_of (doc : json) : option json :=
  at_key doc "general" ≫= fun general => at_key general "properties".

(** The values the loop can run over without throwing. *)
Definition iterable (props : json) : bool :=
  match props with
  | JObject _ | JNull | JArray [] => true
  | _ => false
  end.

(** The declared value of a member of "properties". *)
Definition declared_value (prop : json) : option json := at_key prop "value".

End ProjectJson.

(** [g_currentUserProperties] and [UserPropertiesScope].  [P] is the type
    of pointers to [WPUserProperties]; [None] is [nullptr]. *)
Module UserPropertiesScope.

Section Scope.

Context {P : Type}.

Record UserPropertiesScope : Type := mkScope {
  m_previous : option P
}.

(** A thread: the thread-local pointer and the guards alive on its stack,
    innermost first. *)
Record Thread : Type := mkThread {
  g_currentUserProperties : option P;
  guards : list UserPropertiesScope
}.

(** The constructor: remembers the pointer and replaces it. *)
Definition construct (props : option P) (t : Thread) : Thread :=
  {| g_currentUserProperties := props;
     guards := {| m_previous := g_currentUserProperties t |} :: guards t |}.

(** The destructor of the innermost guard; [None] when there is none. *)
Definition destruct_innermost (t : Thread) : option Thread :=
  match guards t with
  | scope :: rest =>
      Some {| g_currentUserProperties := m_previous scope; guards := rest |}
  | [] => None
  end.

(** What a thread does with guards: enter a scope or leave the innermost
    one. *)
Inductive Action : Type :=
| Enter (props : option P)
| Leave.

Fixpoint run (actions : list Action) (t : Thread) : option Thread :=
  match actions with
  | [] => Some t
  | Enter props :: rest => run rest (construct props t)
  | Leave :: rest =>
      match destruct_innermost t with
      | Some t' => run rest t'
      | None => None
      end
  end.

(** The pointer and the remembered ones, innermost first. *)
Definition pointers (t : Thread) : list (option P) :=
  g_currentUserProperties t :: map m_previous (guards t).

End Scope.

Arguments UserPropertiesScope : clear implicits.
Arguments Thread : clear implicits.
Arguments Action : clear implicits.

End UserPropertiesScope.

(** ** More concrete inputs *)

(** An object that [init] has initialised on a GL 4.2 context. *)
Definition initialised_example : GlExtra :=
  {| uuid := repeat Byte.x00 GL_UUID_SIZE_EXT;
     inited := true;
     m_tiling := OPTIMAL;
     m_shared_ctx := None;
     m_surface := None;
     m_use_shared_ctx := false;
     m_is_low_gl := false |}.

(** An object in low-capability mode. *)
Definition low_example : GlExtra :=
  {| uuid := repeat Byte.x00 GL_UUID_SIZE_EXT;
     inited := true;
     m_tiling := OPTIMAL;
     m_shared_ctx := None;
     m_surface := None;
     m_use_shared_ctx := false;
     m_is_low_gl := true |}.

(** An object that uses the shared context 2 on the surface 3. *)
Definition shared_example : GlExtra :=
  {| uuid := repeat Byte.x00 GL_UUID_SIZE_EXT;
     inited := true;
     m_tiling := LINEAR;
     m_shared_ctx := Some 2%nat;
     m_surface := Some 3%nat;
     m_use_shared_ctx := true;
     m_is_low_gl := false |}.

(** A project file with one property that declares a value and one that
    does not, and a parser that knows this file only. *)
Definition example_document : json :=
  JObject {[ "general" :=
    JObject {[ "properties" :=
      JObject {[ "schemecolor" := JObject {[ "value" := JString "red" ]};
                 "ui" := JObject {[ "text" := JString "UI" ]} ]} ]} ]}.

Definition example_parse (content : string) : option json :=
  if String.eqb content "project.json" then Some example_document else None.

Definition no_properties : WPUserProperties.WPUserProperties :=
  WPUserProperties.mkWPUserProperties ∅.

(* ================================================================== *)
(** * The swapchain keeps its slot invariant *)
(* ================================================================== *)

Section SwapchainFacts.

Import TripleSwapchain.

Context {T : Type}.

Implicit Types (sc : Swapchain T) (s : System T) (i : SlotRef).

Lemma SlotState_eqb_eq (a b : SlotState) : SlotState_eqb a b = true <-> a = b.
Proof. destruct a, b; cbn; split; congruence. Qed.

Lemma in_slots_in st sc i : In i (slots_in st sc) <-> state_of sc i = st.
Proof.
  unfold slots_in. rewrite filter_In, SlotState_eqb_eq.
  split; [tauto|]. intros H; split; [|exact H].
  destruct i; cbn; tauto.
Qed.

Lemma slots_disjoint a b sc : a <> b -> disjoint_slots a b sc.
Proof.
  intros Hab i [Ha Hb]. apply in_slots_in in Ha, Hb. congruence.
Qed.

Lemma counts_total sc :
  (count Free sc + count Writing sc + count Reading sc + count Ready sc = 3)%nat.
Proof.
  destruct sc as [[a ?] [b ?] [c ?]]. destruct a, b, c; reflexivity.
Qed.

(** Splits a system into its three slot states and the two held slots. *)
Ltac slots s :=
  destruct s as [[[?a ?h] [?b ?h] [?c ?h]] ?p ?q].

Ltac use_refl :=
  repeat match goal with
         | H : ?x = ?x -> _ |- _ => specialize (H eq_refl)
         | H : ?x = ?x <-> _ |- _ => destruct H as [H _]
         | H : _ <-> _ |- _ => destruct H as [H _]
         end.

Lemma coupled_counts s :
  coupled s ->
  (count Writing (chain s) <= 1)%nat /\ (count Reading (chain s) <= 1)%nat /\
  (count Ready (chain s) <= 1)%nat.
Proof.
  intros (Hw & Hr & Hy). slots s. cbn in *.
  pose proof (Hw Slot0) as W0. pose proof (Hw Slot1) as W1.
  pose proof (Hw Slot2) as W2. pose proof (Hr Slot0) as R0.
  pose proof (Hr Slot1) as R1. pose proof (Hr Slot2) as R2.
  clear Hw Hr.
  destruct a, b, c; cbn in *; use_refl;
    solve [ repeat split; lia | congruence ].
Qed.

Lemma coupled_free s :
  coupled s -> producer s = None ->
  exists i sc', acquireWrite (chain s) = Some (i, sc').
Proof.
  intros (Hw & Hr & Hy) Hp. slots s. cbn in *. subst.
  pose proof (Hw Slot0) as W0. pose proof (Hw Slot1) as W1.
  pose proof (Hw Slot2) as W2. pose proof (Hr Slot0) as R0.
  pose proof (Hr Slot1) as R1. pose proof (Hr Slot2) as R2.
  clear Hw Hr.
  destruct a, b, c; cbn in *; use_refl;
    solve [ eexists _, _; reflexivity | congruence | lia ].
Qed.

Lemma coupled_initial s : initial s -> coupled s.
Proof.
  intros (h0 & h1 & h2 & ->). repeat split; cbn.
  1-4: destruct i; cbn; congruence.
  lia.
Qed.

Lemma coupled_step s s' : step s s' -> coupled s -> coupled s'.
Proof.
  intros Hstep Hc.
  destruct Hstep as [sc sc' i c H | sc sc' i h c H | sc sc' i p H
                    | sc p H | sc sc' i p H];
    [| | | exact Hc |].
  all: destruct Hc as (Hw & Hr & Hy); cbn in *.
  all: destruct sc as [[a ?] [b ?] [c0 ?]].
  all: pose proof (Hw Slot0) as W0; pose proof (Hw Slot1) as W1;
    pose proof (Hw Slot2) as W2; pose proof (Hr Slot0) as R0;
    pose proof (Hr Slot1) as R1; pose proof (Hr Slot2) as R2;
    clear Hw Hr.
  all: unfold acquireWriteAt, commitWrite, acquireReadAt, releaseRead in H.
  all: destruct i, a, b, c0; cbn in *; try discriminate H.
  all: injection H as <-.
  all: try (exfalso; use_refl; (congruence || lia)).
  all: split; [|split]; [intros j | intros j | cbn; lia].
  all: destruct j; cbn; split; intros E;
    first [ discriminate E | reflexivity
          | destruct W0, W1, W2, R0, R1, R2; intuition congruence ].
Qed.

Lemma coupled_reachable s : reachable s -> coupled s.
Proof.
  intros (s0 & H0 & Hsteps). apply coupled_initial in H0.
  induction Hsteps as [|x y z Hxy _ IH]; [assumption|].
  apply IH. eapply coupled_step; eassumption.
Qed.

End SwapchainFacts.

(** Outside the producer's cycle the model does not protect itself: two
    acquisitions in a row leave two slots [Writing].  The slot bound is a
    property of the two-sided protocol, not of [acquireWriteAt] alone. *)
Lemma acquireWrite_twice_two_writing (h : ExHandle) :
  exists sc1 sc2,
    TripleSwapchain.acquireWriteAt TripleSwapchain.Slot0
      (TripleSwapchain.create h h h) = Some sc1 /\
    TripleSwapchain.acquireWriteAt TripleSwapchain.Slot1 sc1 = Some sc2 /\
    TripleSwapchain.count TripleSwapchain.Writing sc2 = 2%nat.
Proof. eexists _, _. repeat split. Qed.

(** C1.  In every state the swapchain can reach under any interleaving of
    the producer's [acquireWrite]/[commitWrite] and the consumer's
    [acquireRead]/[releaseRead], the slot sets of [Writing], [Reading] and
    [Ready] are pairwise disjoint, each holds at most one slot, the four
    counts add up to 3, and whenever the producer holds no slot
    [acquireWrite] finds a [Free] one. *)
Theorem swapchain_slot_invariant {T : Type} (s : TripleSwapchain.System T) :
  TripleSwapchain.reachable s ->
  TripleSwapchain.slot_invariant (TripleSwapchain.chain s) /\
  (TripleSwapchain.producer s = None ->
   exists i sc',
     TripleSwapchain.acquireWrite (TripleSwapchain.chain s) = Some (i, sc')).
Proof.
  intros Hreach. apply coupled_reachable in Hreach.
  destruct (coupled_counts s Hreach) as (Hw & Hr & Hy).
  split.
  - constructor; try assumption.
    + apply slots_disjoint; discriminate.
    + apply slots_disjoint; discriminate.
    + apply slots_disjoint; discriminate.
    + apply counts_total.
  - apply coupled_free; assumption.
Qed.

Lemma swapchain_example_reachable :
  TripleSwapchain.reachable swapchain_example.
Proof.
  exists (TripleSwapchain.mkSystem
            (TripleSwapchain.create ExHandle_default ExHandle_default
               ExHandle_default) None None).
  split; [eexists _, _, _; reflexivity|].
  eapply rtc_l; [apply TripleSwapchain.step_acquireWrite
                   with (i := TripleSwapchain.Slot0); reflexivity|].
  eapply rtc_l; [apply TripleSwapchain.step_commitWrite
                   with (h := frame1); reflexivity|].
  eapply rtc_l; [apply TripleSwapchain.step_acquireRead
                   with (i := TripleSwapchain.Slot0); reflexivity|].
  eapply rtc_l; [apply TripleSwapchain.step_acquireWrite
                   with (i := TripleSwapchain.Slot1); reflexivity|].
  eapply rtc_l; [apply TripleSwapchain.step_commitWrite
                   with (h := frame2); reflexivity|].
  apply rtc_refl.
Defined.

Lemma swapchain_slot_invariant_witness :
  TripleSwapchain.reachable swapchain_example /\
  TripleSwapchain.slot_invariant (TripleSwapchain.chain swapchain_example) /\
  (TripleSwapchain.producer swapchain_example = None ->
   exists i sc',
     TripleSwapchain.acquireWrite (TripleSwapchain.chain swapchain_example)
     = Some (i, sc')).
Proof.
  split; [exact swapchain_example_reachable|].
  apply (swapchain_slot_invariant swapchain_example).
  exact swapchain_example_reachable.
Defined.

(* ================================================================== *)
(** * A weakest-precondition calculus for [M] *)
(* ================================================================== *)



Section Post.

Context {A : Type}.

Lemma post_ret (a : A) g w Q : Q (Done a) g w -> post (ret a) g w Q.
Proof. exact (fun H => H). Qed.

Lemma post_break g w Q : Q Break g w -> post (@break A) g w Q.
Proof. exact (fun H => H). Qed.

Lemma post_self (f : GlExtra -> A) g w Q :
  (forall a, a = f g -> Q (Done a) g w) -> post (self f) g w Q.
Proof. intros H. apply H. reflexivity. Qed.

Lemma post_observe (f : World -> A) g w Q :
  (forall a, a = f w -> Q (Done a) g w) -> post (observe f) g w Q.
Proof. intros H. apply H. reflexivity. Qed.

Lemma post_call (c : Call) (answer : World -> A) g w Q :
  (forall a, a = answer w -> Q (Done a) g (with_call c w)) ->
  post (call c answer) g w Q.
Proof. intros H. apply H. reflexivity. Qed.

Lemma post_equation (m : M A) g w r g' w' (P : Prop) :
  post m g w (fun r0 g0 w0 => r0 = r -> g0 = g' -> w0 = w' -> P) ->
  m g w = (r, g', w') -> P.
Proof. unfold post. intros H E. rewrite E in H. apply H; reflexivity. Qed.

Lemma post_exists (m : M A) g w (Q : Flow A -> GlExtra -> World -> Prop) :
  post m g w Q -> exists r g' w', m g w = (r, g', w') /\ Q r g' w'.
Proof.
  unfold post. destruct (m g w) as [[r g'] w']. intros H.
  exists r, g', w'. split; [reflexivity | exact H].
Qed.

End Post.

Lemma post_update (f : GlExtra -> GlExtra) g w Q :
  Q (Done tt) (f g) w -> post (update f) g w Q.
Proof. exact (fun H => H). Qed.

Lemma post_change (f : World -> World) g w Q :
  Q (Done tt) g (f w) -> post (change f) g w Q.
Proof. exact (fun H => H). Qed.

Lemma post_bind {A B} (m : M A) (f : A -> M B) g w Q :
  post m g w (fun r g1 w1 =>
    match r with
    | Done a => post (f a) g1 w1 Q
    | Break => Q Break g1 w1
    end) ->
  post (bind m f) g w Q.
Proof.
  unfold post, bind. destruct (m g w) as [[[a|] g1] w1]; cbn; exact (fun H => H).
Qed.

Lemma post_do_while_false (block : M unit) g w Q :
  post block g w (fun _ g1 w1 => Q (Done tt) g1 w1) ->
  post (do_while_false block) g w Q.
Proof.
  unfold post, do_while_false. destruct (block g w) as [[r g1] w1]; cbn.
  exact (fun H => H).
Qed.

Lemma post_new_QOpenGLContext g w Q :
  Q (Done (next_object w)) g
    (with_call (Call_QOpenGLContext_new (next_object w))
       (with_next_object (S (next_object w)) w)) ->
  post new_QOpenGLContext g w Q.
Proof. exact (fun H => H). Qed.

Lemma post_new_QOffscreenSurface g w Q :
  Q (Done (next_object w)) g
    (with_call (Call_QOffscreenSurface_new (next_object w))
       (with_next_object (S (next_object w)) w)) ->
  post new_QOffscreenSurface g w Q.
Proof. exact (fun H => H). Qed.

Lemma post_conseq {A} (m : M A) g w (P Q : Flow A -> GlExtra -> World -> Prop) :
  post m g w P -> (forall r g1 w1, P r g1 w1 -> Q r g1 w1) -> post m g w Q.
Proof. unfold post. intros H HPQ. apply HPQ, H. Qed.

Lemma post_and {A} (m : M A) g w (P Q : Flow A -> GlExtra -> World -> Prop) :
  post m g w P -> post m g w Q ->
  post m g w (fun r g1 w1 => P r g1 w1 /\ Q r g1 w1).
Proof. unfold post. intros HP HQ. split; assumption. Qed.

Ltac post_cbn :=
  cbv beta iota;
  cbn [m_use_shared_ctx m_shared_ctx m_surface m_is_low_gl m_tiling inited uuid
       set_inited set_tiling set_shared set_is_low_gl set_uuid
       current surfaces shares next_object glad calls logs
       with_current with_surfaces with_shares with_next_object with_glad
       with_call with_log fst snd negb andb orb].

Ltac post_cbn_in H :=
  cbn [m_use_shared_ctx m_shared_ctx m_surface m_is_low_gl m_tiling inited uuid
       set_inited set_tiling set_shared set_is_low_gl set_uuid
       current surfaces shares next_object glad calls logs
       with_current with_surfaces with_shares with_next_object with_glad
       with_call with_log fst snd negb andb orb] in H.

Ltac post_step :=
  lazymatch goal with
  | |- post (bind _ _) _ _ _ => apply post_bind
  | |- post (ret _) _ _ _ => apply post_ret
  | |- post break _ _ _ => apply post_break
  | |- post (call _ _) _ _ _ =>
      let a := fresh "a" in let Ha := fresh "Ha" in
      apply post_call; intros a Ha; post_cbn_in Ha
  | |- post (self _) _ _ _ =>
      let a := fresh "a" in let Ha := fresh "Ha" in
      apply post_self; intros a Ha; post_cbn_in Ha; try subst a
  | |- post (observe _) _ _ _ =>
      let a := fresh "a" in let Ha := fresh "Ha" in
      apply post_observe; intros a Ha; post_cbn_in Ha
  | |- post (update _) _ _ _ => apply post_update
  | |- post (change _) _ _ _ => apply post_change
  | |- post (do_while_false _) _ _ _ => apply post_do_while_false
  | |- post new_QOpenGLContext _ _ _ => apply post_new_QOpenGLContext
  | |- post new_QOffscreenSurface _ _ _ => apply post_new_QOffscreenSurface
  | |- post (if negb ?b then _ else _) _ _ _ =>
      tryif is_var b then destruct b
      else first [progress post_cbn | destruct b eqn:?]
  | |- post (if ?b then _ else _) _ _ _ => destruct b eqn:?
  | |- post (match ?x with _ => _ end) _ _ _ => destruct x eqn:?
  | |- post (LOG_INFO _) _ _ _ => unfold LOG_INFO
  | |- post (LOG_ERROR _) _ _ _ => unfold LOG_ERROR
  | |- post (CheckGlError _) _ _ _ => unfold CheckGlError
  | |- post (gladLoadGLLoader _) _ _ _ => unfold gladLoadGLLoader
  | |- post currentContext _ _ _ => unfold currentContext
  | |- post (surface _) _ _ _ => unfold surface
  | |- post (shareContext _) _ _ _ => unfold shareContext
  | |- post (doneCurrent _) _ _ _ => unfold doneCurrent
  | |- post (makeCurrent _ _ _) _ _ _ => unfold makeCurrent
  | |- post (create _ _ _) _ _ _ => unfold create
  | |- post (delete_QOpenGLContext _) _ _ _ => unfold delete_QOpenGLContext
  | |- post (delete_QOffscreenSurface _) _ _ _ => unfold delete_QOffscreenSurface
  | |- post (getUUID _) _ _ _ => unfold getUUID
  | |- post (enter_shared _) _ _ _ => unfold enter_shared
  | |- post (query_tilings _) _ _ _ => unfold query_tilings
  | |- post (init _) _ _ _ => unfold init
  | |- post (init_block _) _ _ _ => unfold init_block
  (* the three blocks of [init] are entered through their own lemmas *)
  | |- post (shared_context_attempt _) _ _ _ => fail
  | |- post (negotiate_tiling _ _) _ _ _ => fail
  | |- post (init_restore _) _ _ _ => fail
  | |- _ => progress post_cbn
  end.

Ltac post_run := repeat (post_step; try post_cbn).

(** Continues from the specification [lem] of the block at the head. *)
Ltac post_use lem :=
  eapply post_conseq; [eapply lem; eauto | cbv beta; intros ? ? ?].

Lemma extends_without_refl P w : extends_without P w w.
Proof. exists []. split; [reflexivity|]. intros c Hc. by apply elem_of_nil in Hc. Qed.

Lemma extends_without_trans P w1 w2 w3 :
  extends_without P w1 w2 -> extends_without P w2 w3 -> extends_without P w1 w3.
Proof.
  intros (n1 & E1 & H1) (n2 & E2 & H2). exists (n2 ++ n1). split.
  - rewrite E2, E1. by rewrite app_assoc.
  - intros c [Hc|Hc]%elem_of_app; auto.
Qed.

(** Reads the calls made since [base] off a concrete log. *)
Ltac new_calls :=
  lazymatch goal with
  | |- ?l = ?new ++ ?base =>
      let rec go l :=
        lazymatch l with
        | base => constr:(@nil Call)
        | ?c :: ?l' => let r := go l' in constr:(c :: r)
        end in
      let n := go l in unify new n; reflexivity
  end.

Ltac each_call :=
  let x := fresh "x" in let Hx := fresh "Hx" in
  intros x Hx;
  repeat (apply elem_of_cons in Hx as [->|Hx]; [reflexivity|]);
  by apply elem_of_nil in Hx.

Ltac extends_calls :=
  unfold extends_without; post_cbn; eexists; split; [new_calls | each_call].

Lemma guard_true h : fd h < 0 \/ size h = 0 -> (fd h <? 0) || (size h =? 0) = true.
Proof. intros [H|H]; apply orb_true_iff; [left|right]; lia. Qed.

Lemma guard_false h : 0 <= fd h -> size h <> 0 -> (fd h <? 0) || (size h =? 0) = false.
Proof. intros; apply orb_false_iff; lia. Qed.

Lemma genExTexture_guard D g w h :
  fd h < 0 \/ size h = 0 ->
  genExTexture D h g w =
  (Done (0, h), g,
   with_log LOGLEVEL_ERROR "gl: invalid ExHandle (fd=%d, size=%zu)" w).
Proof. intros H. unfold genExTexture. rewrite (guard_true h H). reflexivity. Qed.

Lemma genExTexture_past_guard D g w h :
  0 <= fd h -> size h <> 0 ->
  post (genExTexture D h) g w (fun r g' w' =>
    g' = g /\
    exists tex new, r = Done (tex, set_fd h (-1)) /\
      calls w' = new ++ calls w /\
      Call_glCreateMemoryObjectsEXT 1 ∈ new /\
      Call_glGenTextures 1 ∈ new /\
      Call_glBindTexture GL_TEXTURE_2D tex ∈ new /\
      forall c, c ∈ new -> releases_texture c = false).
Proof.
  intros H1 H2. unfold genExTexture. rewrite (guard_false h H1 H2).
  post_run.
  all: split; [reflexivity|]; eexists _, _; split; [reflexivity|].
  all: split; [new_calls|].
  all: repeat split; try solve [repeat constructor].
  all: each_call.
Qed.

Lemma genExTexture_restores D g w h c s :
  current w = Some c -> surfaces w !! c = Some s ->
  (forall w1, makes_current D w1 c s = true) ->
  post (genExTexture D h) g w (fun _ _ w' => current w' = Some c).
Proof.
  intros Hc Hs Hok. unfold genExTexture.
  destruct ((fd h <? 0) || (size h =? 0)).
  - post_run. assumption.
  - post_run.
    all: try assumption; try reflexivity.
    all: try congruence.
Qed.

(** ** [shared_context_attempt] *)

Lemma shared_context_attempt_frame D g w :
  post (shared_context_attempt D) g w (fun r g1 w1 =>
    (exists b, r = Done b) /\ inited g1 = inited g /\
    m_tiling g1 = m_tiling g /\ extends_without is_tiling_query w w1).
Proof.
  unfold shared_context_attempt. post_run.
  all: split; [eexists; reflexivity|].
  all: split; [reflexivity|]; split; [reflexivity|].
  all: extends_calls.
Qed.

Lemma shared_context_attempt_fails D g w :
  no_shared_context D w ->
  post (shared_context_attempt D) g w (fun r _ _ => r = Done true).
Proof.
  intros H. unfold shared_context_attempt. post_run.
  all: try reflexivity.
  all: exfalso; destruct H as [H|[H|[H|H]]]; try congruence.
  all: match goal with
       | Hg : ?a = glad_loads _ ?W, Ht : ?a.1 = true |- _ =>
           rewrite Hg in Ht; rewrite H in Ht by reflexivity; discriminate Ht
       end.
Qed.

Lemma shared_context_attempt_restores D g w c s :
  current w = Some c -> surfaces w !! c = Some s -> (c < next_object w)%nat ->
  (forall w1, makes_current D w1 c s = true) ->
  (m_use_shared_ctx g = true -> m_shared_ctx g <> Some c) ->
  post (shared_context_attempt D) g w (fun _ g1 w1 =>
    current w1 = Some c /\
    (m_use_shared_ctx g1 = true -> m_shared_ctx g1 <> Some c)).
Proof.
  intros Hc Hs Hlt Hok Hshared. unfold shared_context_attempt. post_run.
  all: try match goal with
           | H : Some ?c0 = current _ |- _ =>
               rewrite Hc in H; injection H as ->
           | H : None = current _ |- _ => rewrite Hc in H; discriminate H
           end.
  all: try match goal with
           | H : _ = <[_:=_]> (surfaces _) !! _ |- _ =>
               rewrite lookup_insert_ne in H by lia; rewrite Hs in H;
               first [discriminate H | injection H as ->]
           end.
  all: try match goal with
           | H : false = makes_current _ _ _ _ |- _ =>
               rewrite Hok in H; discriminate H
           end.
  all: try (split; [first [assumption | reflexivity] |]).
  all: try assumption.
  all: try (intros _ [= E]; lia).
  all: try (intros ?; first [apply Hshared; congruence | congruence]).
  all: exfalso; assert (c = next_object w) by congruence; lia.
Qed.

(** ** [negotiate_tiling] *)

Lemma scan_tilings_from (l : list Z) (o n : bool) :
  foldl (fun flags tiling =>
           if tiling =? GL_OPTIMAL_TILING_EXT then (true, flags.2)
           else if tiling =? GL_LINEAR_TILING_EXT then (flags.1, true)
           else flags) (o, n) l
  = (o || bool_decide (GL_OPTIMAL_TILING_EXT ∈ l),
     n || bool_decide (GL_LINEAR_TILING_EXT ∈ l)).
Proof.
  revert o n. induction l as [|t l IH]; intros o n; cbn [foldl].
  - rewrite !bool_decide_eq_false_2 by apply not_elem_of_nil.
    by rewrite !orb_false_r.
  - assert (Hcons : forall x : Z, x <> t ->
              bool_decide (x ∈ t :: l) = bool_decide (x ∈ l)).
    { intros x Hx. apply bool_decide_ext. rewrite elem_of_cons. tauto. }
    destruct (Z.eqb_spec t GL_OPTIMAL_TILING_EXT) as [->|Ho];
      [|destruct (Z.eqb_spec t GL_LINEAR_TILING_EXT) as [->|Hl]];
      rewrite IH; cbn [fst snd].
    + rewrite (bool_decide_eq_true_2 (GL_OPTIMAL_TILING_EXT ∈ GL_OPTIMAL_TILING_EXT :: _))
        by apply list_elem_of_here.
      rewrite (Hcons GL_LINEAR_TILING_EXT) by discriminate.
      by rewrite orb_true_r.
    + rewrite (bool_decide_eq_true_2 (GL_LINEAR_TILING_EXT ∈ GL_LINEAR_TILING_EXT :: _))
        by apply list_elem_of_here.
      rewrite (Hcons GL_OPTIMAL_TILING_EXT) by discriminate.
      by rewrite orb_true_r.
    + rewrite !Hcons by congruence. reflexivity.
Qed.

Lemma scan_tilings_spec (l : list Z) :
  scan_tilings l = (bool_decide (GL_OPTIMAL_TILING_EXT ∈ l),
                    bool_decide (GL_LINEAR_TILING_EXT ∈ l)).
Proof. unfold scan_tilings. by rewrite scan_tilings_from. Qed.

Lemma take_take_app {A} (n : nat) (l pad : list A) :
  take n (take n l ++ pad) = take n (l ++ pad).
Proof.
  revert l. induction n as [|n IH]; intros [|x l]; cbn; try reflexivity.
  f_equal. apply IH.
Qed.

Lemma negotiate_tiling_frame D v g w :
  post (negotiate_tiling D v) g w (fun _ g1 w1 =>
    current w1 = current w /\ inited g1 = inited g /\
    m_is_low_gl g1 = m_is_low_gl g /\
    m_use_shared_ctx g1 = m_use_shared_ctx g /\
    m_shared_ctx g1 = m_shared_ctx g).
Proof.
  unfold negotiate_tiling. post_run. all: repeat split.
Qed.

Lemma negotiate_tiling_selects D k ts v vendor g w :
  reports D k ts v ->
  post (negotiate_tiling D vendor) g w (fun r g1 _ =>
    match r with
    | Done _ => m_tiling g1 = select_tiling (tilings_read k ts) vendor
    | Break => k <= 0 \/
               ((GL_OPTIMAL_TILING_EXT ∉ tilings_read k ts) /\
                GL_LINEAR_TILING_EXT ∉ tilings_read k ts)
    end).
Proof.
  intros (Hk & Hts & _). unfold negotiate_tiling. post_run.
  all: repeat match goal with
              | H : _ = num_tiling_types _ _ |- _ => rewrite Hk in H
              | H : _ = tiling_types _ _ _ |- _ => rewrite Hts in H
              end.
  all: subst; rewrite ?take_take_app in *.
  all: fold (tilings_read k ts) in *.
  all: rewrite ?scan_tilings_spec in *; cbn [fst snd] in *.
  all: unfold select_tiling.
  all: repeat case_bool_decide; cbn [negb andb] in *;
    try discriminate; try reflexivity.
  all: try (left; lia).
  all: try (right; tauto).
Qed.

Lemma not_elem_of_read (x : Z) (n : nat) (written : list Z) :
  x <> 0 -> x ∉ written -> x ∉ take n (written ++ repeat 0 n).
Proof.
  intros Hx Hw Hin. apply subseteq_take in Hin.
  apply elem_of_app in Hin as [Hin|Hin]; [exact (Hw Hin)|].
  apply list_elem_of_In, repeat_spec in Hin. exact (Hx Hin).
Qed.

Lemma negotiate_tiling_none D vendor g w :
  no_tiling D ->
  post (negotiate_tiling D vendor) g w (fun r _ _ => r = Break).
Proof.
  intros Hnone. unfold negotiate_tiling. post_run.
  all: try reflexivity.
  all: exfalso; destruct Hnone as [Hk|Hts].
  all: try match goal with
           | H : _ = num_tiling_types _ ?W |- _ =>
               specialize (Hk W); rewrite <- H in Hk; lia
           end.
  all: match goal with
       | H : _ = tiling_types _ ?W ?n |- _ =>
           destruct (Hts W n) as [Ho Hl]; rewrite <- H in Ho, Hl
       end.
  all: rewrite scan_tilings_spec in *; cbn [fst snd] in *.
  all: repeat case_bool_decide; try discriminate.
  all: match goal with
       | H : _ ∈ take _ _ |- _ =>
           revert H; apply not_elem_of_read; [discriminate | assumption]
       end.
Qed.

(** ** [init_restore] *)

Lemma init_restore_frame D g w :
  post (init_restore D) g w (fun r g1 w1 =>
    r = Done tt /\ g1 = g /\ extends_without is_tiling_query w w1).
Proof.
  unfold init_restore. post_run.
  all: split; [reflexivity|]; split; [reflexivity|]; extends_calls.
Qed.

Lemma init_restore_noop D g w :
  (m_use_shared_ctx g = true -> current w <> m_shared_ctx g) ->
  post (init_restore D) g w (fun _ _ w1 => w1 = w).
Proof.
  intros H. unfold init_restore. post_run.
  all: try reflexivity.
  all: exfalso; apply H; congruence.
Qed.

(** ** [init] as a whole

    The three blocks of [init] whose specifications are used as they are. *)
Ltac at_restore :=
  lazymatch goal with
  | |- post (init_restore _) _ _ _ =>
      post_use init_restore_frame; intros (-> & -> & ?)
  end.

Ltac at_shared lem :=
  lazymatch goal with
  | |- post (shared_context_attempt _) _ _ _ =>
      eapply post_conseq;
      [apply post_and; [apply shared_context_attempt_frame | eapply lem; eauto]
      | cbv beta; intros ? ? ? [([? ->] & ? & ? & ?) ?]]
  end.

Ltac at_negotiate lem :=
  lazymatch goal with
  | |- post (negotiate_tiling _ _) _ _ _ =>
      eapply post_conseq;
      [apply post_and; [apply negotiate_tiling_frame | eapply lem; eauto]
      | cbv beta; intros [[]|] ? ? [(? & ? & ? & ? & ?) ?]]
  end.

Ltac post_cbn_hyps :=
  cbn [m_use_shared_ctx m_shared_ctx m_surface m_is_low_gl m_tiling inited uuid
       set_inited set_tiling set_shared set_is_low_gl set_uuid
       current surfaces shares next_object glad calls logs
       with_current with_surfaces with_shares with_next_object with_glad
       with_call with_log fst snd negb andb orb] in *.

Lemma post_true {A} (m : M A) g w : post m g w (fun _ _ _ => True).
Proof. exact I. Qed.

Lemma init_without_extensions D g w :
  inited g = false -> extensions_missing D w ->
  post (init D) g w (fun r g' _ => r = Done false /\ inited g' = false).
Proof.
  intros Hi Hext. unfold extensions_missing in Hext. post_run.
  all: try (at_restore; post_run; split; congruence).
  all: exfalso; subst; rewrite Hext in *; discriminate.
Qed.

Lemma init_without_tiling D g w :
  inited g = false -> no_tiling D ->
  post (init D) g w (fun r g' _ => m_is_low_gl g' = false -> r = Done false).
Proof.
  intros Hi Hnone. post_run.
  all: try (at_restore; post_run; intros; congruence).
  all: try (at_shared (@post_true bool); post_run).
  all: try (at_negotiate negotiate_tiling_none; try discriminate; post_run).
  all: at_restore; post_run; post_cbn_hyps; intros; congruence.
Qed.

Lemma extends_without_call P c w w1 :
  P c = false -> extends_without P w w1 ->
  extends_without P w (with_call c w1).
Proof.
  intros Hc (new & E & H). exists (c :: new). split.
  - cbn. by rewrite E.
  - intros x [->|Hx]%elem_of_cons; auto.
Qed.

Lemma extends_without_same P w w1 w2 :
  calls w2 = calls w1 -> extends_without P w w1 -> extends_without P w w2.
Proof. intros Hc (new & E & H). exists new. by rewrite Hc. Qed.

Ltac extends_solve :=
  repeat first
    [ apply extends_without_refl
    | eassumption
    | apply extends_without_call; [reflexivity|]
    | apply (extends_without_same _ _ _ (with_log _ _ _) eq_refl)
    | apply (extends_without_same _ _ _ (with_glad _ _) eq_refl)
    | apply (extends_without_same _ _ _ (with_current _ _) eq_refl)
    | apply (extends_without_same _ _ _ (with_surfaces _ _) eq_refl)
    | apply (extends_without_same _ _ _ (with_shares _ _) eq_refl)
    | apply (extends_without_same _ _ _ (with_next_object _ _) eq_refl)
    | match goal with
      | H : extends_without _ ?wa ?wb |- extends_without _ _ ?wb =>
          eapply extends_without_trans; [|exact H]
      end ].

Lemma init_falls_back D g w :
  inited g = false -> low_context D w -> no_shared_context D w ->
  post (init D) g w (fun r g' w' =>
    r = Done true /\ m_is_low_gl g' = true /\ inited g' = true /\
    m_tiling g' = m_tiling g /\ extends_without is_tiling_query w w').
Proof.
  intros Hi (Hload & Hmem & Hsem & H42 & Hes) Hno. post_run.
  all: subst; try congruence.
  all: try (exfalso; rewrite ?Hmem, ?Hsem, ?H42, ?Hes in *; discriminate).
  all: lazymatch goal with
       | |- post (shared_context_attempt _) _ _ _ =>
           eapply post_conseq;
           [apply post_and;
            [apply shared_context_attempt_frame
            | apply shared_context_attempt_fails; exact Hno]
           | cbv beta; intros ? ? ? [([? ->] & ? & ? & ?) [= ->]]]
       end.
  all: post_run.
  all: at_restore; post_run; post_cbn_hyps.
  all: repeat split; try congruence.
  all: extends_solve.
Qed.

Lemma tilings_read_none k ts : k <= 0 -> tilings_read k ts = [].
Proof.
  intros Hk. unfold tilings_read.
  replace (Z.to_nat (Z.min k 2)) with 0%nat by lia. reflexivity.
Qed.

(** With GLAD loaded, both extensions present and a known tiling among the
    entries read, a first [init] succeeds, and outside low-capability mode
    [m_tiling] is the selection. *)
Lemma init_negotiates D k ts v g w :
  reports D k ts v -> inited g = false ->
  (glad_loads D w).1 = true ->
  GLAD_GL_EXT_memory_object (glad_loads D w).2 = true ->
  GLAD_GL_EXT_semaphore (glad_loads D w).2 = true ->
  GL_OPTIMAL_TILING_EXT ∈ tilings_read k ts \/
  GL_LINEAR_TILING_EXT ∈ tilings_read k ts ->
  post (init D) g w (fun r g' _ =>
    r = Done true /\
    (m_is_low_gl g' = false ->
     m_tiling g' = select_tiling (tilings_read k ts) v)).
Proof.
  intros Hrep Hi Hload Hmem Hsem Hknown. post_run.
  all: subst; try congruence.
  all: try (exfalso; rewrite ?Hmem, ?Hsem in *; discriminate).
  all: try (at_shared (@post_true bool); post_run).
  all: try (at_negotiate (negotiate_tiling_selects D k ts v); post_run).
  all: try (exfalso;
            match goal with
            | H : _ <= 0 \/ _ |- _ =>
                destruct H as [Hk|[Ho Hl]];
                [rewrite (tilings_read_none k ts Hk) in Hknown;
                 destruct Hknown as [Hin|Hin]; by apply elem_of_nil in Hin
                | tauto]
            end).
  all: at_restore; post_run; post_cbn_hyps.
  all: split; [congruence|]; intros; try congruence.
  all: destruct Hrep as (_ & _ & Hv);
    repeat match goal with
           | H : _ = vendor_string _ _ |- _ => rewrite Hv in H
           end; subst; congruence.
Qed.

Lemma init_restores D g w c s :
  current w = Some c -> surfaces w !! c = Some s -> (c < next_object w)%nat ->
  (forall w1, makes_current D w1 c s = true) ->
  (m_use_shared_ctx g = true -> m_shared_ctx g <> Some c) ->
  post (init D) g w (fun _ _ w' => current w' = Some c).
Proof.
  intros Hc Hs Hlt Hok Hshared. post_run.
  all: try lazymatch goal with
       | |- post (shared_context_attempt _) _ _ _ =>
           eapply post_conseq;
           [apply post_and;
            [apply shared_context_attempt_frame
            | apply (shared_context_attempt_restores D _ _ c s);
              [exact Hc | exact Hs | exact Hlt | exact Hok | exact Hshared]]
           | cbv beta; intros ? ? ? [([? ->] & ? & ? & ?) [? ?]]]
       end.
  all: post_run.
  all: try (at_negotiate (@post_true unit); post_run).
  all: post_cbn_hyps.
  all: lazymatch goal with
       | |- post (init_restore _) ?g1 ?w1 _ =>
           eapply post_conseq;
           [apply post_and;
            [apply init_restore_frame | apply (init_restore_noop D g1 w1)]
           | cbv beta; intros ? ? ? [(-> & -> & _) ->]; post_run; congruence]
       end.
  all: post_cbn; intros Hu E;
    match goal with
    | H : _ = true -> _ <> Some _ |- _ => apply H; congruence
    end.
Qed.

(* ================================================================== *)
(** * [GlExtra]: the statements of the specification *)
(* ================================================================== *)

(** [init] and [genExTexture] always return: neither leaves through a
    [break]. *)
Lemma init_returns D g w :
  exists b g' w', init D g w = (Done b, g', w').
Proof.
  unfold init, bind, self. destruct (do_while_false _ g w) as [[r g1] w1] eqn:E.
  unfold do_while_false in E. destruct (init_block D g w) as [[r0 g0] w0].
  injection E as <- <- <-.
  pose proof (init_restore_frame D g0 w0) as H. unfold post in H.
  destruct (init_restore D g0 w0) as [[r2 g2] w2]. cbn in H.
  destruct H as (-> & -> & _). eauto.
Qed.

Lemma genExTexture_returns D g w h :
  exists tex h' g' w', genExTexture D h g w = (Done (tex, h'), g', w').
Proof.
  destruct (Z_lt_le_dec (fd h) 0) as [Hfd|Hfd];
    [|destruct (Z.eq_dec (size h) 0) as [Hsz|Hsz]].
  - rewrite genExTexture_guard by (left; exact Hfd). eauto.
  - rewrite genExTexture_guard by (right; exact Hsz). eauto.
  - pose proof (genExTexture_past_guard D g w h Hfd Hsz) as H.
    unfold post in H. destruct (genExTexture D h g w) as [[r g'] w'].
    cbn in H. destruct H as (_ & tex & _ & -> & _). eauto.
Qed.

(** C2.  A handle whose descriptor is negative or whose size is 0 is
    refused: [genExTexture] returns the texture name 0, leaves the handle
    and the object as they are, makes no call at all (the call log is
    unchanged) and leaves the current context alone. *)
Theorem genExTexture_invalid_handle D g w h :
  fd h < 0 \/ size h = 0 ->
  exists w',
    genExTexture D h g w = (Done (0, h), g, w') /\
    calls w' = calls w /\ current w' = current w.
Proof.
  intros H. eexists. split; [apply genExTexture_guard; exact H|].
  split; reflexivity.
Qed.

Lemma genExTexture_invalid_handle_witness :
  exists w',
    genExTexture driver_desktop ExHandle_default GlExtra_new world0
    = (Done (0, ExHandle_default), GlExtra_new, w') /\
    calls w' = calls world0 /\ current w' = current world0.
Proof.
  apply (genExTexture_invalid_handle driver_desktop GlExtra_new world0
           ExHandle_default).
  left. reflexivity.
Defined.

(** C3.  When [genExTexture] returns a texture name other than 0, the
    handle's descriptor is -1 afterwards, and importing that handle again,
    with any driver and in any state, is refused without a single call. *)
Theorem genExTexture_consumes_descriptor D g w h tex h' g' w' :
  genExTexture D h g w = (Done (tex, h'), g', w') ->
  tex <> 0 ->
  fd h' = -1 /\
  forall D2 g2 w2, exists w3,
    genExTexture D2 h' g2 w2 = (Done (0, h'), g2, w3) /\
    calls w3 = calls w2.
Proof.
  intros E Htex.
  assert (Hfd : fd h' = -1).
  { destruct (Z_lt_le_dec (fd h) 0) as [Hfd|Hfd];
      [|destruct (Z.eq_dec (size h) 0) as [Hsz|Hsz]].
    - rewrite genExTexture_guard in E by (left; exact Hfd). congruence.
    - rewrite genExTexture_guard in E by (right; exact Hsz). congruence.
    - pose proof (genExTexture_past_guard D g w h Hfd Hsz) as H.
      unfold post in H. rewrite E in H. cbn in H.
      destruct H as (_ & t & _ & [= _ ->] & _). reflexivity. }
  split; [exact Hfd|]. intros D2 g2 w2.
  eexists. split; [apply genExTexture_guard; left; lia | reflexivity].
Qed.

Lemma genExTexture_consumes_descriptor_witness :
  fd (set_fd frame1 (-1)) = -1 /\
  forall D2 g2 w2, exists w3,
    genExTexture D2 (set_fd frame1 (-1)) g2 w2
    = (Done (0, set_fd frame1 (-1)), g2, w3) /\
    calls w3 = calls w2.
Proof.
  apply (genExTexture_consumes_descriptor driver_desktop GlExtra_new world0
           frame1 7 (set_fd frame1 (-1))
           (genExTexture driver_desktop frame1 GlExtra_new world0).1.2
           (genExTexture driver_desktop frame1 GlExtra_new world0).2).
  - reflexivity.
  - discriminate.
Defined.

(** [find] answers whether the needle occurs in the string. *)
Lemma prefix_append (p s : string) :
  String.prefix p s = true <-> exists b, s = String.append p b.
Proof.
  revert s. induction p as [|a p IH]; intros s; cbn.
  - split; [intros _; exists s; reflexivity | destruct s; reflexivity].
  - destruct s as [|b s]; cbn.
    + split; [discriminate | intros (t & Ht); discriminate Ht].
    + destruct (ascii_dec a b) as [->|Hab].
      * rewrite IH. split; intros (t & Ht); exists t.
        -- rewrite Ht. reflexivity.
        -- change (String b s = String b (String.append p t)) in Ht.
           congruence.
      * split; [discriminate | intros (t & Ht)].
        change (String b s = String a (String.append p t)) in Ht.
        congruence.
Qed.

Lemma find_occurs (needle s : string) :
  is_Some (find needle s) <->
  exists a b, s = String.append a (String.append needle b).
Proof.
  induction s as [|c s IH]; cbn [find].
  - destruct (String.prefix needle "") eqn:E.
    + split; [|intros _; eexists; reflexivity].
      intros _. apply prefix_append in E as (b & Hb).
      exists EmptyString, b. exact Hb.
    + split; [intros [x Hx]; discriminate Hx|].
      intros ([|a0 a] & b & Hab); [|discriminate Hab].
      assert (String.prefix needle "" = true) as E'
          by (apply prefix_append; exists b; exact Hab).
      congruence.
  - destruct (String.prefix needle (String c s)) eqn:E.
    + split; [|intros _; eexists; reflexivity].
      intros _. apply prefix_append in E as (b & Hb).
      exists EmptyString, b. exact Hb.
    + rewrite fmap_is_Some, IH. split.
      * intros (a & b & ->). exists (String c a), b. reflexivity.
      * intros ([|a0 a] & b & Hab).
        -- assert (String.prefix needle (String c s) = true) as E'
             by (apply prefix_append; exists b; exact Hab).
           congruence.
        -- change (String c s
                   = String a0 (String.append a (String.append needle b)))
             in Hab.
           injection Hab as -> ->. eauto.
Qed.

(** A driver that reports as many tilings as it has, at most two, has all
    of them read. *)
Lemma tilings_read_all (ts : list Z) :
  (0 < length ts <= 2)%nat -> tilings_read (Z.of_nat (length ts)) ts = ts.
Proof.
  intros H. unfold tilings_read.
  destruct ts as [|a [|b [|c ts]]]; cbn in *; try reflexivity; lia.
Qed.

(** A tiling the code knows that is among the entries read is among the
    first two the driver reports. *)
Lemma tilings_read_first_two (x k : Z) (ts : list Z) :
  x <> 0 -> x ∈ tilings_read k ts -> 0 < k /\ x ∈ take 2 ts.
Proof.
  intros Hx Hin. split.
  - destruct (Z_lt_le_dec 0 k) as [Hk|Hk]; [exact Hk|].
    rewrite (tilings_read_none k ts Hk) in Hin. by apply elem_of_nil in Hin.
  - unfold tilings_read in Hin. rewrite take_app in Hin.
    apply elem_of_app in Hin as [Hin|Hin].
    + replace (Z.to_nat (Z.min k 2)) with (Z.to_nat (Z.min k 2) `min` 2)%nat
        in Hin by lia.
      rewrite <- take_take in Hin. by apply subseteq_take in Hin.
    + apply subseteq_take in Hin.
      apply list_elem_of_In, repeat_spec in Hin. contradiction.
Qed.

(** The claim as the specification words it fails on a driver that reports
    optimal tiling third: [init] reads two entries, so it succeeds outside
    low-capability mode and selects [LINEAR] although optimal tiling is
    reported and the vendor is not the defective one. *)
Lemma init_ignores_third_tiling :
  num_tiling_types driver_three_tilings world0 = 3 /\
  GL_OPTIMAL_TILING_EXT ∈ tiling_types driver_three_tilings world0 3 /\
  ~ has_marker (vendor_string driver_three_tilings world0) /\
  (init driver_three_tilings GlExtra_new world0).1.1 = Done true /\
  m_is_low_gl (init driver_three_tilings GlExtra_new world0).1.2 = false /\
  tiling (init driver_three_tilings GlExtra_new world0).1.2 = LINEAR.
Proof.
  split; [reflexivity|]. split; [vm_compute; right; right; left|].
  split; [|repeat split].
  unfold has_marker. rewrite <- find_occurs. vm_compute. intros [? [=]].
Qed.

(** C4, as the code has it.  [init] looks at the entries it reads, the
    first [min num 2] the driver reports.  With GLAD loaded, both
    extensions present and optimal or linear tiling among these entries, a
    first [init] succeeds, and when it ends outside low-capability mode
    [m_tiling] is: [LINEAR] when linear tiling is among them and the vendor
    string contains "AMD", whether or not optimal tiling is among them too;
    otherwise [OPTIMAL] when optimal tiling is among them; otherwise
    [LINEAR]. *)
Theorem init_tiling_negotiation D k ts v g w :
  reports D k ts v ->
  inited g = false ->
  (glad_loads D w).1 = true ->
  GLAD_GL_EXT_memory_object (glad_loads D w).2 = true ->
  GLAD_GL_EXT_semaphore (glad_loads D w).2 = true ->
  GL_OPTIMAL_TILING_EXT ∈ tilings_read k ts \/
  GL_LINEAR_TILING_EXT ∈ tilings_read k ts ->
  exists g' w',
    init D g w = (Done true, g', w') /\
    (m_is_low_gl g' = false ->
     (GL_LINEAR_TILING_EXT ∈ tilings_read k ts -> has_marker v ->
      tiling g' = LINEAR) /\
     (GL_OPTIMAL_TILING_EXT ∈ tilings_read k ts ->
      ~ (GL_LINEAR_TILING_EXT ∈ tilings_read k ts /\ has_marker v) ->
      tiling g' = OPTIMAL) /\
     (GL_OPTIMAL_TILING_EXT ∉ tilings_read k ts -> tiling g' = LINEAR)).
Proof.
  intros Hrep Hi Hload Hmem Hsem Hknown.
  destruct (post_exists _ _ _ _
              (init_negotiates D k ts v g w Hrep Hi Hload Hmem Hsem Hknown))
    as (r & g' & w' & E & -> & Hsel).
  exists g', w'. split; [exact E|]. intros Hlow.
  unfold tiling. rewrite (Hsel Hlow). unfold select_tiling, has_marker.
  rewrite <- (find_occurs "AMD" v).
  repeat case_bool_decide; cbn [andb]; repeat split; intros; tauto.
Qed.

Lemma driver_amd_reports : reports driver_amd 2 both_tilings "AMD".
Proof. repeat split. Defined.

Lemma init_tiling_negotiation_witness :
  (init driver_amd GlExtra_new world0).1.1 = Done true /\
  tiling (init driver_amd GlExtra_new world0).1.2 = LINEAR.
Proof.
  destruct (init_tiling_negotiation driver_amd 2 both_tilings "AMD"
              GlExtra_new world0 driver_amd_reports
              eq_refl eq_refl eq_refl eq_refl)
    as (g' & w' & E & H).
  - left. vm_compute. left.
  - rewrite E. cbn [fst snd]. split; [reflexivity|].
    assert (Hg : g' = (init driver_amd GlExtra_new world0).1.2)
      by (rewrite E; reflexivity).
    assert (Hlow : m_is_low_gl g' = false) by (rewrite Hg; reflexivity).
    destruct (H Hlow) as (Hlinear & _ & _). apply Hlinear.
    + vm_compute. right. left.
    + exists EmptyString, EmptyString. reflexivity.
Defined.

(** C5.  A first [init] returns [false] when the driver lacks one of the
    two extensions, and when it ends outside low-capability mode with a
    driver that reports no tiling the code knows (a count of 0 or less, or
    neither optimal nor linear). *)
Theorem init_fails_unsupported D g w r g' w' :
  inited g = false ->
  init D g w = (r, g', w') ->
  extensions_missing D w \/ (m_is_low_gl g' = false /\ no_tiling D) ->
  r = Done false.
Proof.
  intros Hi E [Hext|[Hlow Hnone]]; revert E; apply post_equation.
  - eapply post_conseq; [apply init_without_extensions; assumption|].
    cbv beta. intros r1 g1 w1 [H _] <- _ _. exact H.
  - eapply post_conseq; [apply init_without_tiling; assumption|].
    cbv beta. intros r1 g1 w1 H <- -> _. exact (H Hlow).
Qed.

Lemma init_fails_unsupported_witness :
  (init driver_no_extensions GlExtra_new world0).1.1 = Done false.
Proof.
  apply (init_fails_unsupported driver_no_extensions GlExtra_new world0
           (init driver_no_extensions GlExtra_new world0).1.1
           (init driver_no_extensions GlExtra_new world0).1.2
           (init driver_no_extensions GlExtra_new world0).2).
  - reflexivity.
  - vm_compute. reflexivity.
  - left. reflexivity.
Defined.

(** C6.  On a context below GL 4.2 and GLES 3.0 where no shared context can
    be used (none is current, or the new context cannot be created, cannot
    be made current, or GLAD cannot be reloaded on it), a first [init]
    succeeds in low-capability mode: it returns [true], [m_is_low_gl] is
    [true], no tiling query is made and [m_tiling] is left as it was. *)
Theorem init_low_capability_fallback D g w :
  inited g = false ->
  low_context D w ->
  no_shared_context D w ->
  exists g' w',
    init D g w = (Done true, g', w') /\
    m_is_low_gl g' = true /\ inited g' = true /\
    m_tiling g' = m_tiling g /\
    extends_without is_tiling_query w w'.
Proof.
  intros Hi Hlow Hno.
  destruct (post_exists _ _ _ _ (init_falls_back D g w Hi Hlow Hno))
    as (r & g' & w' & E & -> & H).
  exists g', w'. split; assumption.
Qed.

Lemma init_low_capability_fallback_witness :
  exists g' w',
    init driver_low GlExtra_new world_plasma = (Done true, g', w') /\
    m_is_low_gl g' = true /\ inited g' = true /\
    m_tiling g' = m_tiling GlExtra_new /\
    extends_without is_tiling_query world_plasma w'.
Proof.
  apply (init_low_capability_fallback driver_low GlExtra_new world_plasma).
  - reflexivity.
  - repeat split.
  - right. left. reflexivity.
Defined.

(** [genExTexture] makes no context switch when the object does not use a
    shared context. *)
Lemma genExTexture_without_shared_context D g w h :
  m_use_shared_ctx g = false ->
  post (genExTexture D h) g w (fun _ _ w' => current w' = current w).
Proof.
  intros Hu. unfold genExTexture.
  destruct ((fd h <? 0) || (size h =? 0)); post_run.
  all: first [reflexivity | congruence].
Qed.

(** [init] called with no context current leaves none current. *)
Lemma init_without_context D g w :
  current w = None ->
  post (init D) g w (fun _ _ w' => current w' = None).
Proof.
  intros Hc. post_run.
  all: try lazymatch goal with
       | |- post (shared_context_attempt _) _ _ _ =>
           unfold shared_context_attempt; post_run; try congruence
       end.
  all: try (at_negotiate (@post_true unit); post_run).
  all: post_cbn_hyps.
  all: lazymatch goal with
       | |- post (init_restore _) _ _ _ => unfold init_restore; post_run
       end.
  all: congruence.
Qed.

(** With no context current and a shared context in use, [genExTexture]
    leaves the shared context current: the object is the one [init]
    produces on a GL 3.2 shell context, the import is called after the
    shell released its context. *)
Lemma genExTexture_leaves_shared_context_current :
  let r := init driver_low_shared GlExtra_new world_plasma in
  let w := with_current None r.2 in
  r.1.1 = Done true /\
  m_use_shared_ctx r.1.2 = true /\
  current w = None /\
  current (genExTexture driver_low_shared frame1 r.1.2 w).2 = Some 2%nat.
Proof. vm_compute. repeat split. Qed.

(** C7, as the code has it.  When a context [c] is current on a surface
    [s] on entry, [c] is not the object's own shared context, and the
    platform lets [c] be made current on [s] again, then [c] is the current
    context when [init] returns and when [genExTexture] returns, on every
    path. *)
Theorem scoped_context_switch D g w h c s :
  current w = Some c ->
  surfaces w !! c = Some s ->
  (c < next_object w)%nat ->
  (forall w1, makes_current D w1 c s = true) ->
  (m_use_shared_ctx g = true -> m_shared_ctx g <> Some c) ->
  current (init D g w).2 = Some c /\
  current (genExTexture D h g w).2 = Some c.
Proof.
  intros Hc Hs Hlt Hok Hshared. split.
  - exact (init_restores D g w c s Hc Hs Hlt Hok Hshared).
  - exact (genExTexture_restores D g w h c s Hc Hs Hok).
Qed.

Lemma scoped_context_switch_witness :
  current (init driver_low_shared GlExtra_new world_plasma).2 = Some 0%nat /\
  current (genExTexture driver_low_shared frame1 GlExtra_new world_plasma).2
  = Some 0%nat.
Proof.
  apply (scoped_context_switch driver_low_shared GlExtra_new world_plasma
           frame1 0%nat 1%nat).
  - reflexivity.
  - reflexivity.
  - cbn. lia.
  - reflexivity.
  - discriminate.
Defined.







(* ================================================================== *)
(** * [WPUserProperties::ResolveValue] *)
(* ================================================================== *)

Lemma contains_at_key (j : json) (key : string) (v : json) :
  at_key j key = Some v -> contains j key = true.
Proof.
  intros H. unfold contains. rewrite H. apply bool_decide_eq_true_2. eauto.
Qed.

Lemma at_key_is_object (j : json) (key : string) (v : json) :
  at_key j key = Some v -> is_object j = true.
Proof. destruct j; cbn; congruence. Qed.

(** A conditional reference whose declared default is not a boolean is
    resolved to the property's value, not to the outcome of the
    comparison; and one whose property does not exist is resolved to the
    declared default. *)
Lemma ResolveValue_conditional_not_boolean :
  WPUserProperties.ResolveValue (fun _ => EmptyString) example_properties
    (conditional_reference (JInteger 1))
  = Returns (JString "red") /\
  WPUserProperties.ResolveValue (fun _ => EmptyString)
    (WPUserProperties.mkWPUserProperties ∅)
    (conditional_reference (JBoolean true))
  = Returns (JBoolean true).
Proof. split; vm_compute; reflexivity. Qed.

(** C9, as the code has it.  A plain reference resolves to the property's
    value when the property exists, and otherwise to the declared default
    (to the input itself when it declares none).  A conditional reference
    with a string name [n] and a string condition [c] resolves to the
    declared default (or the input) when the property does not exist; to
    whether the property's value, a string as it is and anything else
    serialised, equals [c] when [c] is not empty and the declared default
    is a boolean; and to the property's value otherwise. *)
Theorem ResolveValue_reference (dump : json -> string)
    (this : WPUserProperties.WPUserProperties) (j : json) :
  (forall p,
     at_key j "user" = Some (JString p) ->
     WPUserProperties.ResolveValue dump this j
     = Returns (match WPUserProperties.GetProperty this p with
                | Some v => v
                | None => WPUserProperties.value_or_original j
                end)) /\
  (forall u n c,
     at_key j "user" = Some (JObject u) ->
     u !! "name" = Some (JString n) ->
     u !! "condition" = Some (JString c) ->
     WPUserProperties.ResolveValue dump this j
     = Returns (match WPUserProperties.GetProperty this n with
                | None => WPUserProperties.value_or_original j
                | Some v =>
                    if negb (String.eqb c EmptyString)
                       && is_boolean (default JNull (at_key j "value"))
                    then JBoolean
                           (String.eqb (WPUserProperties.propStr dump v) c)
                    else v
                end)).
Proof.
  split.
  - intros p Hu. unfold WPUserProperties.ResolveValue.
    rewrite (at_key_is_object _ _ _ Hu), (contains_at_key _ _ _ Hu), Hu.
    cbn. destruct (WPUserProperties.GetProperty this p); reflexivity.
  - intros u n c Hu Hn Hc. unfold WPUserProperties.ResolveValue.
    rewrite (at_key_is_object _ _ _ Hu), (contains_at_key _ _ _ Hu), Hu.
    cbn [negb from_option Datatypes.id].
    unfold WPUserProperties.reference_of. cbn [is_string is_object andb].
    rewrite (contains_at_key (JObject u) "name" (JString n) Hn).
    rewrite (contains_at_key (JObject u) "condition" (JString c) Hc).
    cbn [at_key]. rewrite Hn, Hc.
    cbn [from_option Datatypes.id get_string and_then].
    destruct (WPUserProperties.GetProperty this n) as [v|]; [|reflexivity].
    destruct (String.eqb c EmptyString); cbn [negb andb]; [reflexivity|].
    destruct (at_key j "value") as [d|] eqn:Hd.
    + rewrite (contains_at_key _ _ _ Hd). cbn [andb from_option Datatypes.id].
      destruct (is_boolean d); reflexivity.
    + unfold contains. rewrite Hd.
      rewrite bool_decide_eq_false_2 by (intros [x Hx]; discriminate Hx).
      reflexivity.
Qed.

Lemma ResolveValue_reference_witness :
  WPUserProperties.ResolveValue (fun _ => EmptyString) example_properties
    plain_reference
  = Returns (JString "red") /\
  WPUserProperties.ResolveValue (fun _ => EmptyString) example_properties
    (conditional_reference (JBoolean false))
  = Returns (JBoolean true).
Proof.
  split.
  - exact (proj1 (ResolveValue_reference (fun _ => EmptyString)
                    example_properties plain_reference)
             "schemecolor" eq_refl).
  - exact (proj2 (ResolveValue_reference (fun _ => EmptyString)
                    example_properties
                    (conditional_reference (JBoolean false)))
             {[ "condition" := JString "red"; "name" := JString "schemecolor" ]}
             "schemecolor" "red" eq_refl eq_refl eq_refl).
Defined.

(** C10.  A value that is not an object, and an object without a "user"
    member, is returned as it is. *)
Theorem ResolveValue_identity (dump : json -> string)
    (this : WPUserProperties.WPUserProperties) (j : json) :
  is_object j = false \/ contains j "user" = false ->
  WPUserProperties.ResolveValue dump this j = Returns j.
Proof.
  intros [H|H]; unfold WPUserProperties.ResolveValue.
  - rewrite H. reflexivity.
  - rewrite H. destruct (is_object j); reflexivity.
Qed.

Lemma ResolveValue_identity_witness :
  WPUserProperties.ResolveValue (fun _ => EmptyString) example_properties
    (JInteger 5) = Returns (JInteger 5) /\
  WPUserProperties.ResolveValue (fun _ => EmptyString) example_properties
    (JObject {[ "value" := JInteger 5 ]})
  = Returns (JObject {[ "value" := JInteger 5 ]}).
Proof.
  split.
  - apply (ResolveValue_identity (fun _ => EmptyString) example_properties
             (JInteger 5)).
    left. reflexivity.
  - apply (ResolveValue_identity (fun _ => EmptyString) example_properties
             (JObject {[ "value" := JInteger 5 ]})).
    right. reflexivity.
Defined.

(* ================================================================== *)
(** * More about [GlExtra] *)
(* ================================================================== *)

Lemma extends_without_weaken (P Q : Call -> bool) w w1 :
  (forall c, P c = false -> Q c = false) ->
  extends_without P w w1 -> extends_without Q w w1.
Proof. intros HPQ (new & E & H). exists new. split; auto. Qed.

(** [init_restore] changes nothing in the object and calls nothing but
    [makeCurrent]; it does nothing at all unless the shared context is in
    use and current. *)
Lemma init_restore_switches_only D g w :
  post (init_restore D) g w (fun r g1 w1 =>
    r = Done tt /\ g1 = g /\ extends_without not_makeCurrent w w1 /\
    allocations w1 = allocations w /\
    ((m_use_shared_ctx g = true -> current w <> m_shared_ctx g) -> w1 = w)).
Proof.
  unfold init_restore. post_run.
  all: split; [reflexivity|]; split; [reflexivity|].
  all: split; [extends_calls | split; [reflexivity|]].
  all: try (intros _; reflexivity).
  all: intros H; exfalso; apply H; congruence.
Qed.

(** [negotiate_tiling] changes [m_tiling] only, calls OpenGL only, and
    leaves the Qt side of the world alone. *)
Lemma negotiate_tiling_changes_tiling_only D v g w :
  post (negotiate_tiling D v) g w (fun _ g1 w1 =>
    (exists t, g1 = set_tiling t g) /\
    extends_without is_qt_call w w1 /\
    allocations w1 = allocations w /\ current w1 = current w).
Proof.
  unfold negotiate_tiling. post_run.
  all: split;
    [first [ eexists; reflexivity
           | exists (m_tiling g); destruct g; reflexivity ]|].
  all: split; [extends_calls | split; reflexivity].
Qed.

Ltac at_restore_switches :=
  lazymatch goal with
  | |- post (init_restore _) _ _ _ =>
      post_use init_restore_switches_only; intros (-> & -> & ? & ? & ?)
  end.

(** An initialised object: [init] returns [true] and changes nothing in the
    object; whatever it calls is a [makeCurrent], and it calls nothing when
    the shared context is not the current one. *)
Lemma init_again D g w :
  inited g = true ->
  post (init D) g w (fun r g' w' =>
    r = Done true /\ g' = g /\ extends_without not_makeCurrent w w' /\
    ((m_use_shared_ctx g = true -> current w <> m_shared_ctx g) -> w' = w)).
Proof.
  intros Hi. post_run; try congruence.
  at_restore_switches. post_run. repeat split; try assumption. congruence.
Qed.

(** What [shared_context_attempt] creates it deletes again, unless it
    keeps it in [m_shared_ctx] and [m_surface]. *)
Lemma shared_context_attempt_allocations D g w :
  m_use_shared_ctx g = false ->
  post (shared_context_attempt D) g w (fun r g1 w1 =>
    let n := next_object w in
    (r = Done true /\ g1 = g /\
     (allocations w1 = allocations w \/
      allocations w1
      = Call_QOpenGLContext_delete n :: Call_QOpenGLContext_new n
        :: allocations w \/
      allocations w1
      = Call_QOpenGLContext_delete n :: Call_QOffscreenSurface_delete (S n)
        :: Call_QOffscreenSurface_new (S n) :: Call_QOpenGLContext_new n
        :: allocations w)) \/
    (r = Done false /\ g1 = set_shared n (S n) g /\
     allocations w1
     = Call_QOffscreenSurface_new (S n) :: Call_QOpenGLContext_new n
       :: allocations w)).
Proof.
  intros Hu. unfold shared_context_attempt. post_run; try congruence.
  all: cbv zeta; unfold allocations; post_cbn;
    cbn [List.filter allocates].
  all: first
    [ right; repeat split; reflexivity
    | left; split; [reflexivity|]; split; [reflexivity|];
      first [ left; reflexivity
            | right; left; reflexivity
            | right; right; reflexivity ] ].
Qed.

(** On a platform where the shared context can be set up it is set up. *)
Lemma shared_context_attempt_succeeds D g w c :
  current w = Some c -> shared_context_usable D w ->
  post (shared_context_attempt D) g w (fun r g1 _ =>
    r = Done false /\ g1 = set_shared (next_object w) (S (next_object w)) g).
Proof.
  intros Hc (Hcreate & Hmake & Hglad). unfold shared_context_attempt.
  post_run.
  all: try (split; reflexivity).
  all: exfalso; try congruence.
  all: try match goal with
           | H : false = context_creates _ _ _ |- _ =>
               rewrite Hcreate in H; discriminate H
           | H : false = makes_current _ _ (next_object _) _ |- _ =>
               rewrite Hmake in H; discriminate H
           | Hg : ?a = glad_loads _ ?W, Ht : ?a.1 = false |- _ =>
               rewrite Hg in Ht; rewrite Hglad in Ht by reflexivity;
               discriminate Ht
           end.
Qed.

Lemma extends_without_log P w w1 l msg :
  extends_without P w w1 -> extends_without P w (with_log l msg w1).
Proof. apply extends_without_same. reflexivity. Qed.

Lemma extends_without_glad P w w1 caps :
  extends_without P w w1 -> extends_without P w (with_glad caps w1).
Proof. apply extends_without_same. reflexivity. Qed.

Lemma extends_without_current P w w1 c :
  extends_without P w w1 -> extends_without P w (with_current c w1).
Proof. apply extends_without_same. reflexivity. Qed.

Lemma extends_without_surfaces P w w1 m :
  extends_without P w w1 -> extends_without P w (with_surfaces m w1).
Proof. apply extends_without_same. reflexivity. Qed.

Lemma extends_without_shares P w w1 m :
  extends_without P w w1 -> extends_without P w (with_shares m w1).
Proof. apply extends_without_same. reflexivity. Qed.

Lemma extends_without_next_object P w w1 n :
  extends_without P w w1 -> extends_without P w (with_next_object n w1).
Proof. apply extends_without_same. reflexivity. Qed.

(** Walks back through a world to the one it extends; [lem] turns a
    statement about one kind of call into the one asked for. *)
Ltac extends_walk lem :=
  repeat first
    [ apply extends_without_refl
    | assumption
    | apply extends_without_call; [reflexivity|]
    | apply extends_without_log
    | apply extends_without_glad
    | apply extends_without_current
    | apply extends_without_surfaces
    | apply extends_without_shares
    | apply extends_without_next_object
    | match goal with
      | H : extends_without ?P ?wa ?wb |- extends_without ?P _ ?wb =>
          eapply extends_without_trans; [|exact H]
      | H : extends_without _ ?wa ?wb |- extends_without _ _ ?wb =>
          eapply extends_without_trans;
          [|eapply extends_without_weaken; [|exact H]; lem]
      end ].

Lemma makeCurrent_is_no_gl_call c :
  not_makeCurrent c = false -> is_gl_call c = false.
Proof. destruct c; cbn; congruence. Qed.

(** A first [init] that cannot load GLAD or misses an extension fails
    before it touches the object or calls OpenGL. *)
Lemma init_fails_early D g w :
  inited g = false ->
  (glad_loads D w).1 = false \/ extensions_missing D w ->
  post (init D) g w (fun r g' w' =>
    r = Done false /\ g' = g /\ extends_without is_gl_call w w').
Proof.
  intros Hi Hfail. unfold extensions_missing in Hfail. post_run.
  all: try (at_restore_switches; post_run; repeat split; try congruence;
            extends_walk ltac:(apply makeCurrent_is_no_gl_call)).
  all: exfalso; subst; destruct Hfail as [H|H]; rewrite H in *; discriminate.
Qed.

Lemma makeCurrent_not_tiling c :
  is_qt_call c = false -> not_makeCurrent c = true.
Proof. destruct c; cbn; congruence. Qed.

Ltac at_negotiate_only :=
  lazymatch goal with
  | |- post (negotiate_tiling _ _) _ _ _ =>
      eapply post_conseq;
      [apply negotiate_tiling_changes_tiling_only
      | cbv beta; intros [[]|] ? ? ([? ->] & ? & ? & ?)]
  end.

(** On a GL 4.2 or GLES 3.0 context a first [init] stays on the caller's
    context: it calls nothing on Qt, is not in low-capability mode and uses
    no shared context. *)
Lemma init_on_capable_context D g w :
  inited g = false -> capable_context D w -> m_use_shared_ctx g = false ->
  post (init D) g w (fun _ g' w' =>
    extends_without is_qt_call w w' /\ m_is_low_gl g' = false /\
    m_use_shared_ctx g' = false /\ m_shared_ctx g' = m_shared_ctx g).
Proof.
  intros Hi (Hload & Hmem & Hsem & Hver) Hu. post_run.
  all: subst; try congruence.
  all: try (exfalso; rewrite ?Hmem, ?Hsem in *; discriminate).
  all: try (exfalso;
            destruct (GLAD_GL_VERSION_4_2 (glad_loads D w).2),
                     (GLAD_GL_ES_VERSION_3_0 (glad_loads D w).2);
            discriminate).
  all: try (at_negotiate_only; post_run).
  all: lazymatch goal with
       | |- post (init_restore _) ?g1 ?w1 _ =>
           eapply post_conseq;
           [apply (init_restore_switches_only D g1 w1)
           | cbv beta; intros ? ? ? (-> & -> & _ & _ & Hsame)]
       end.
  all: rewrite Hsame; [| post_cbn; congruence ].
  all: post_run.
  all: repeat split; try congruence.
  all: match goal with |- _ => extends_walk idtac end.
Qed.

(** On a context below GL 4.2 and GLES 3.0 with a usable platform, a first
    [init] keeps the new context and its surface: the object uses the
    shared context and is not in low-capability mode, whether or not the
    tiling negotiation that follows succeeds. *)
Lemma init_sets_up_shared_context D g w c :
  inited g = false -> low_context D w -> current w = Some c ->
  shared_context_usable D w ->
  post (init D) g w (fun _ g' _ =>
    m_use_shared_ctx g' = true /\
    m_shared_ctx g' = Some (next_object w) /\
    m_surface g' = Some (S (next_object w)) /\
    m_is_low_gl g' = false).
Proof.
  intros Hi (Hload & Hmem & Hsem & H42 & Hes) Hc Huse. post_run.
  all: subst; try congruence.
  all: try (exfalso; rewrite ?Hmem, ?Hsem, ?H42, ?Hes in *; discriminate).
  all: lazymatch goal with
       | |- post (shared_context_attempt _) _ _ _ =>
           eapply post_conseq;
           [apply (shared_context_attempt_succeeds D _ _ c);
            [exact Hc | exact Huse]
           | cbv beta; intros ? ? ? (-> & ->)]
       end.
  all: post_run.
  all: at_negotiate_only; post_run.
  all: at_restore_switches; post_run.
  all: repeat split.
Qed.

(** A first [init] that succeeds has stored the device UUID: the sixteen
    bytes the driver wrote, zero-filled if it wrote fewer. *)
Lemma init_stores_uuid D u g w :
  (forall w1, device_uuid D w1 = u) -> inited g = false ->
  post (init D) g w (fun r g' _ =>
    r = Done true ->
    uuid g' = take GL_UUID_SIZE_EXT (u ++ repeat Byte.x00 GL_UUID_SIZE_EXT)).
Proof.
  intros Hu Hi. post_run.
  all: try (at_restore_switches; post_run; intros; congruence).
  all: try (at_shared (@post_true bool); post_run).
  all: try (at_negotiate_only; post_run).
  all: at_restore_switches; post_run; try (intros; congruence).
  all: intros _;
    repeat match goal with
           | H : _ = device_uuid _ _ |- _ => rewrite Hu in H
           end; subst; reflexivity.
Qed.

(** [init] followed by the destructor, on an object that holds no shared
    context yet: every context and surface [init] created has been
    deleted, and nothing else has. *)
Lemma init_then_destructor_allocations D g w :
  m_use_shared_ctx g = false -> m_shared_ctx g = None -> m_surface g = None ->
  post (init D ;;; GlExtra_destructor) g w (fun _ _ w' =>
    let n := next_object w in
    allocations w' = allocations w \/
    allocations w'
    = Call_QOpenGLContext_delete n :: Call_QOpenGLContext_new n
      :: allocations w \/
    allocations w'
    = Call_QOpenGLContext_delete n :: Call_QOffscreenSurface_delete (S n)
      :: Call_QOffscreenSurface_new (S n) :: Call_QOpenGLContext_new n
      :: allocations w).
Proof.
  intros Hu Hc Hs. unfold GlExtra_destructor. post_run.
  all: try lazymatch goal with
       | |- post (shared_context_attempt _) _ _ _ =>
           eapply post_conseq;
           [apply shared_context_attempt_allocations; exact Hu
           | cbv beta zeta;
             intros ? ? ? [(-> & -> & Halloc)|(-> & -> & Halloc)]]
       end.
  all: post_run.
  all: try (at_negotiate_only; post_run).
  all: at_restore_switches; post_run.
  all: try congruence.
  all: try match goal with
           | H : _ \/ _ \/ _ |- _ => destruct H as [H|[H|H]]
           end.
  all: unfold allocations in *; post_cbn_hyps; post_cbn;
    cbn [List.filter allocates] in *.
  all: first [ left; congruence
             | right; left; congruence
             | right; right; congruence ].
Qed.

(** ** The calls of [genExTexture] *)

Lemma split_here {A} (x : A) (l : list A) : x :: l = [] ++ x :: l.
Proof. reflexivity. Qed.

Lemma split_later {A} (c x : A) (l l1 l2 : list A) :
  l = l1 ++ x :: l2 -> c :: l = (c :: l1) ++ x :: l2.
Proof. intros ->. reflexivity. Qed.

(** Finds the call the goal asks for in a concrete log. *)
Ltac split_log :=
  first [ apply split_here | apply split_later; split_log ].

Lemma genExTexture_log D g w h :
  0 <= fd h -> size h <> 0 ->
  post (genExTexture D h) g w (fun _ _ w' =>
    exists new, calls w' = new ++ calls w /\
      (* the tiling parameter *)
      (if m_is_low_gl g
       then forall c, c ∈ new -> is_tex_parameter c = false
       else exists after before,
         new = after
               ++ Call_glTexParameteri GL_TEXTURE_2D GL_TEXTURE_TILING_EXT
                    (tiling_param (m_tiling g)) :: before /\
         (exists c, c ∈ after /\ is_storage c = true) /\
         (forall c, c ∈ before -> is_storage c = false)) /\
      (* the memory object *)
      (exists memobject,
         Call_glImportMemoryFdEXT memobject (size h)
           GL_HANDLE_TYPE_OPAQUE_FD_EXT (fd h) ∈ new /\
         Call_glTexStorageMem2DEXT GL_TEXTURE_2D 1 GL_RGBA8
           (width h) (height h) memobject 0 ∈ new) /\
      (* the shared context *)
      (forall shared_ctx,
         m_use_shared_ctx g = true -> m_shared_ctx g = Some shared_ctx ->
         exists later,
           new = later
                 ++ [Call_QOpenGLContext_makeCurrent shared_ctx (m_surface g)])).
Proof.
  intros Hfd Hsz. unfold genExTexture. rewrite (guard_false h Hfd Hsz).
  post_run.
  all: eexists; split; [new_calls|].
  all: split; [|split].
  all: try (eexists; split; solve [repeat constructor]).
  all: try each_call.
  all: try (intros ? ? [= <-]; eexists; split_log).
  all: try (intros ? ? ?; congruence).
  all: try (eexists _, _; split; [split_log|];
            split; [eexists; split; [solve [repeat constructor]|reflexivity]
                   | each_call]).

Qed.

(* ================================================================== *)
(** * More about [GlExtra]: the statements *)
(* ================================================================== *)

(** X1.  [init] on an initialised object returns [true] and leaves the
    object as it is.  It loads nothing and queries nothing: any call it
    makes is a [makeCurrent], and it makes none unless its shared context
    is the current one. *)
Theorem init_is_idempotent D g w :
  inited g = true ->
  exists w',
    init D g w = (Done true, g, w') /\
    extends_without not_makeCurrent w w' /\
    ((m_use_shared_ctx g = true -> current w <> m_shared_ctx g) -> w' = w).
Proof.
  intros Hi.
  destruct (post_exists _ _ _ _ (init_again D g w Hi))
    as (r & g' & w' & E & -> & -> & H).
  exists w'. split; assumption.
Qed.

Lemma init_is_idempotent_witness :
  exists w',
    init driver_desktop initialised_example world0
    = (Done true, initialised_example, w') /\
    extends_without not_makeCurrent world0 w' /\
    ((m_use_shared_ctx initialised_example = true ->
      current world0 <> m_shared_ctx initialised_example) -> w' = world0).
Proof.
  apply (init_is_idempotent driver_desktop initialised_example world0).
  reflexivity.
Defined.

(** X2.  A first [init] that cannot load GLAD, or finds one of the two
    extensions missing, returns [false] with the object untouched and
    without a single OpenGL call. *)
Theorem init_early_failure D g w :
  inited g = false ->
  (glad_loads D w).1 = false \/ extensions_missing D w ->
  exists w',
    init D g w = (Done false, g, w') /\ extends_without is_gl_call w w'.
Proof.
  intros Hi Hfail.
  destruct (post_exists _ _ _ _ (init_fails_early D g w Hi Hfail))
    as (r & g' & w' & E & -> & -> & H).
  exists w'. split; assumption.
Qed.

Lemma init_early_failure_witness :
  exists w',
    init driver_no_extensions GlExtra_new world0
    = (Done false, GlExtra_new, w') /\
    extends_without is_gl_call world0 w'.
Proof.
  apply (init_early_failure driver_no_extensions GlExtra_new world0).
  - reflexivity.
  - right. reflexivity.
Defined.

(** X3.  A first [init] returns [true] only if GLAD loaded and exposed both
    the memory-object and the semaphore extension. *)
Theorem init_success_needs_extensions D g w g' w' :
  inited g = false ->
  init D g w = (Done true, g', w') ->
  (glad_loads D w).1 = true /\
  GLAD_GL_EXT_memory_object (glad_loads D w).2 = true /\
  GLAD_GL_EXT_semaphore (glad_loads D w).2 = true.
Proof.
  intros Hi E.
  assert (Hnot : ~ ((glad_loads D w).1 = false \/ extensions_missing D w)).
  { intros Hfail.
    pose proof (init_fails_early D g w Hi Hfail) as H. unfold post in H.
    rewrite E in H. destruct H as ([=] & _). }
  unfold extensions_missing in Hnot.
  destruct (glad_loads D w).1,
    (GLAD_GL_EXT_memory_object (glad_loads D w).2),
    (GLAD_GL_EXT_semaphore (glad_loads D w).2);
    cbn in Hnot; tauto.
Qed.

Lemma init_success_needs_extensions_witness :
  (glad_loads driver_desktop world0).1 = true /\
  GLAD_GL_EXT_memory_object (glad_loads driver_desktop world0).2 = true /\
  GLAD_GL_EXT_semaphore (glad_loads driver_desktop world0).2 = true.
Proof.
  apply (init_success_needs_extensions driver_desktop GlExtra_new world0
           (init driver_desktop GlExtra_new world0).1.2
           (init driver_desktop GlExtra_new world0).2).
  - reflexivity.
  - vm_compute. reflexivity.
Defined.

(** X4.  On a GL 4.2 or GLES 3.0 context a first [init] of an object that
    uses no shared context works on the caller's context alone: it calls
    nothing on Qt (no context or surface is created, no context switch),
    records that it is not in low-capability mode, and still uses no
    shared context afterwards. *)
Theorem init_capable_context_stays_direct D g w :
  inited g = false ->
  capable_context D w ->
  m_use_shared_ctx g = false ->
  extends_without is_qt_call w (init D g w).2 /\
  m_is_low_gl (init D g w).1.2 = false /\
  m_use_shared_ctx (init D g w).1.2 = false /\
  m_shared_ctx (init D g w).1.2 = m_shared_ctx g.
Proof.
  intros Hi Hcap Hu. exact (init_on_capable_context D g w Hi Hcap Hu).
Qed.

Lemma init_capable_context_stays_direct_witness :
  extends_without is_qt_call world0
    (init driver_desktop GlExtra_new world0).2 /\
  m_is_low_gl (init driver_desktop GlExtra_new world0).1.2 = false /\
  m_use_shared_ctx (init driver_desktop GlExtra_new world0).1.2 = false /\
  m_shared_ctx (init driver_desktop GlExtra_new world0).1.2
  = m_shared_ctx GlExtra_new.
Proof.
  apply (init_capable_context_stays_direct driver_desktop GlExtra_new world0).
  - reflexivity.
  - repeat split.
  - reflexivity.
Defined.

(** X5.  On a context below GL 4.2 and GLES 3.0, with a context current and
    a platform on which the shared context can be created, made current
    and loaded, a first [init] keeps the new context and its surface: the
    object uses the shared context and is not in low-capability mode. *)
Theorem init_shared_context_established D g w c :
  inited g = false ->
  low_context D w ->
  current w = Some c ->
  shared_context_usable D w ->
  m_use_shared_ctx (init D g w).1.2 = true /\
  m_shared_ctx (init D g w).1.2 = Some (next_object w) /\
  m_surface (init D g w).1.2 = Some (S (next_object w)) /\
  m_is_low_gl (init D g w).1.2 = false.
Proof.
  intros Hi Hlow Hc Hus.
  exact (init_sets_up_shared_context D g w c Hi Hlow Hc Hus).
Qed.

Lemma init_shared_context_established_witness :
  m_use_shared_ctx (init driver_low_shared GlExtra_new world_plasma).1.2
  = true /\
  m_shared_ctx (init driver_low_shared GlExtra_new world_plasma).1.2
  = Some (next_object world_plasma) /\
  m_surface (init driver_low_shared GlExtra_new world_plasma).1.2
  = Some (S (next_object world_plasma)) /\
  m_is_low_gl (init driver_low_shared GlExtra_new world_plasma).1.2 = false.
Proof.
  apply (init_shared_context_established driver_low_shared GlExtra_new
           world_plasma 0%nat).
  - reflexivity.
  - repeat split.
  - reflexivity.
  - repeat split.
Defined.

(** X6.  A first [init] that succeeds, in either mode, has stored the
    device UUID: sixteen bytes, those the driver wrote, zero-filled when it
    wrote fewer. *)
Theorem init_stores_device_uuid D u g w g' w' :
  (forall w1, device_uuid D w1 = u) ->
  inited g = false ->
  init D g w = (Done true, g', w') ->
  uuid g' = take GL_UUID_SIZE_EXT (u ++ repeat Byte.x00 GL_UUID_SIZE_EXT) /\
  length (uuid g') = GL_UUID_SIZE_EXT.
Proof.
  intros Hu Hi E.
  assert (H : uuid g'
              = take GL_UUID_SIZE_EXT (u ++ repeat Byte.x00 GL_UUID_SIZE_EXT)).
  { revert E. apply post_equation.
    eapply post_conseq; [apply (init_stores_uuid D u); assumption|].
    cbv beta. intros r g1 w1 H -> -> _. apply H. reflexivity. }
  split; [exact H|]. rewrite H, length_take, length_app, repeat_length. lia.
Qed.

Lemma init_stores_device_uuid_witness :
  uuid (init driver_desktop GlExtra_new world0).1.2
  = take GL_UUID_SIZE_EXT ([] ++ repeat Byte.x00 GL_UUID_SIZE_EXT) /\
  length (uuid (init driver_desktop GlExtra_new world0).1.2)
  = GL_UUID_SIZE_EXT.
Proof.
  apply (init_stores_device_uuid driver_desktop [] GlExtra_new world0
           (init driver_desktop GlExtra_new world0).1.2
           (init driver_desktop GlExtra_new world0).2).
  - reflexivity.
  - reflexivity.
  - vm_compute. reflexivity.
Defined.

(** X7.  No Qt object is leaked.  On an object that holds no shared context
    yet, [init] followed by the destructor has deleted every context and
    surface that [init] created: either nothing was created, or the context
    was created and deleted, or the context and its surface were created
    and both deleted, the surface first. *)
Theorem init_then_destructor_releases D g w :
  m_use_shared_ctx g = false ->
  m_shared_ctx g = None ->
  m_surface g = None ->
  let w' := ((init D ;;; GlExtra_destructor) g w).2 in
  let n := next_object w in
  allocations w' = allocations w \/
  allocations w'
  = Call_QOpenGLContext_delete n :: Call_QOpenGLContext_new n
    :: allocations w \/
  allocations w'
  = Call_QOpenGLContext_delete n :: Call_QOffscreenSurface_delete (S n)
    :: Call_QOffscreenSurface_new (S n) :: Call_QOpenGLContext_new n
    :: allocations w.
Proof.
  intros Hu Hc Hs. exact (init_then_destructor_allocations D g w Hu Hc Hs).
Qed.

Lemma init_then_destructor_releases_witness :
  let w' :=
    ((init driver_low_shared ;;; GlExtra_destructor) GlExtra_new world_plasma).2
  in
  let n := next_object world_plasma in
  allocations w' = allocations world_plasma \/
  allocations w'
  = Call_QOpenGLContext_delete n :: Call_QOpenGLContext_new n
    :: allocations world_plasma \/
  allocations w'
  = Call_QOpenGLContext_delete n :: Call_QOffscreenSurface_delete (S n)
    :: Call_QOffscreenSurface_new (S n) :: Call_QOpenGLContext_new n
    :: allocations world_plasma.
Proof.
  apply (init_then_destructor_releases driver_low_shared GlExtra_new
           world_plasma).
  all: reflexivity.
Defined.

(** X8.  Outside low-capability mode an import sets the texture's tiling
    parameter to the tiling [init] negotiated, and does so before the
    storage is bound: the [glTexStorageMem2DEXT] call comes after the
    [glTexParameteri] call and no storage call comes before it. *)
Theorem genExTexture_tiling_before_storage D g w h :
  0 <= fd h -> size h <> 0 ->
  m_is_low_gl g = false ->
  exists after before,
    calls (genExTexture D h g w).2
    = after
      ++ Call_glTexParameteri GL_TEXTURE_2D GL_TEXTURE_TILING_EXT
           (tiling_param (m_tiling g)) :: before ++ calls w /\
    (exists c, c ∈ after /\ is_storage c = true) /\
    (forall c, c ∈ before -> is_storage c = false).
Proof.
  intros Hfd Hsz Hlow.
  pose proof (genExTexture_log D g w h Hfd Hsz) as H. unfold post in H.
  destruct H as (new & E & Ht & _). rewrite Hlow in Ht.
  destruct Ht as (after & before & -> & Ha & Hb).
  exists after, before. split; [|split; assumption].
  rewrite E, <- app_assoc. reflexivity.
Qed.

Lemma genExTexture_tiling_before_storage_witness :
  exists after before,
    calls (genExTexture driver_desktop frame1 shared_example world0).2
    = after
      ++ Call_glTexParameteri GL_TEXTURE_2D GL_TEXTURE_TILING_EXT
           (tiling_param (m_tiling shared_example)) :: before ++ calls world0 /\
    (exists c, c ∈ after /\ is_storage c = true) /\
    (forall c, c ∈ before -> is_storage c = false).
Proof.
  apply (genExTexture_tiling_before_storage driver_desktop shared_example
           world0 frame1).
  - vm_compute. discriminate.
  - vm_compute. discriminate.
  - reflexivity.
Defined.

(** X9.  In low-capability mode an import never sets a texture parameter:
    no [glTexParameteri] call is among the calls it makes. *)
Theorem genExTexture_low_sets_no_parameter D g w h :
  0 <= fd h -> size h <> 0 ->
  m_is_low_gl g = true ->
  exists new,
    calls (genExTexture D h g w).2 = new ++ calls w /\
    forall c, c ∈ new -> is_tex_parameter c = false.
Proof.
  intros Hfd Hsz Hlow.
  pose proof (genExTexture_log D g w h Hfd Hsz) as H. unfold post in H.
  destruct H as (new & E & Ht & _). rewrite Hlow in Ht.
  exists new. split; assumption.
Qed.

Lemma genExTexture_low_sets_no_parameter_witness :
  exists new,
    calls (genExTexture driver_desktop frame1 low_example world0).2
    = new ++ calls world0 /\
    forall c, c ∈ new -> is_tex_parameter c = false.
Proof.
  apply (genExTexture_low_sets_no_parameter driver_desktop low_example
           world0 frame1).
  - vm_compute. discriminate.
  - vm_compute. discriminate.
  - reflexivity.
Defined.

(** X10.  The memory object that receives the handle's descriptor is the one
    bound to the texture: [glImportMemoryFdEXT] is called with the handle's
    size and descriptor, and [glTexStorageMem2DEXT] with the handle's width
    and height, one RGBA8 level at offset 0, on the same memory object. *)
Theorem genExTexture_binds_imported_memory D g w h :
  0 <= fd h -> size h <> 0 ->
  exists new memobject,
    calls (genExTexture D h g w).2 = new ++ calls w /\
    Call_glImportMemoryFdEXT memobject (size h)
      GL_HANDLE_TYPE_OPAQUE_FD_EXT (fd h) ∈ new /\
    Call_glTexStorageMem2DEXT GL_TEXTURE_2D 1 GL_RGBA8
      (width h) (height h) memobject 0 ∈ new.
Proof.
  intros Hfd Hsz.
  pose proof (genExTexture_log D g w h Hfd Hsz) as H. unfold post in H.
  destruct H as (new & E & _ & (memobject & Hi & Hs) & _).
  exists new, memobject. repeat split; assumption.
Qed.

Lemma genExTexture_binds_imported_memory_witness :
  exists new memobject,
    calls (genExTexture driver_desktop frame1 initialised_example world0).2
    = new ++ calls world0 /\
    Call_glImportMemoryFdEXT memobject (size frame1)
      GL_HANDLE_TYPE_OPAQUE_FD_EXT (fd frame1) ∈ new /\
    Call_glTexStorageMem2DEXT GL_TEXTURE_2D 1 GL_RGBA8
      (width frame1) (height frame1) memobject 0 ∈ new.
Proof.
  apply (genExTexture_binds_imported_memory driver_desktop
           initialised_example world0 frame1).
  - vm_compute. discriminate.
  - vm_compute. discriminate.
Defined.

(** X11.  An object that uses a shared context makes that context current on
    its own surface before anything else: the first call of an import is
    [makeCurrent] on the shared context with [m_surface]. *)
Theorem genExTexture_enters_shared_context_first D g w h shared_ctx :
  0 <= fd h -> size h <> 0 ->
  m_use_shared_ctx g = true ->
  m_shared_ctx g = Some shared_ctx ->
  exists later,
    calls (genExTexture D h g w).2
    = later
      ++ Call_QOpenGLContext_makeCurrent shared_ctx (m_surface g) :: calls w.
Proof.
  intros Hfd Hsz Hu Hc.
  pose proof (genExTexture_log D g w h Hfd Hsz) as H. unfold post in H.
  destruct H as (new & E & _ & _ & Hs).
  destruct (Hs shared_ctx Hu Hc) as (later & ->).
  exists later. rewrite E, <- app_assoc. reflexivity.
Qed.

Lemma genExTexture_enters_shared_context_first_witness :
  exists later,
    calls (genExTexture driver_desktop frame1 shared_example world0).2
    = later
      ++ Call_QOpenGLContext_makeCurrent 2%nat (m_surface shared_example)
         :: calls world0.
Proof.
  apply (genExTexture_enters_shared_context_first driver_desktop
           shared_example world0 frame1 2%nat).
  - vm_compute. discriminate.
  - vm_compute. discriminate.
  - reflexivity.
  - reflexivity.
Defined.

(* ================================================================== *)
(** * More about [WPUserProperties] *)
(* ================================================================== *)

Section LoadFacts.

Import WPUserProperties ProjectJson.

Variable parse : string -> option json.

Implicit Types (this : WPUserProperties) (members : gmap string json).

(** The loop inserts the declared values and writes one line for each. *)
Lemma load_properties_fold members (table : gmap string json) :
  map_fold load_property (table, []) members
  = (omap declared_value members ∪ table,
     replicate (base.size (omap declared_value members))
       (LOGLEVEL_INFO, "User property: %s = %s"%string)).
Proof.
  apply (map_fold_weak_ind
    (fun r m =>
       r = (omap declared_value m ∪ table,
            replicate (base.size (omap declared_value m))
              (LOGLEVEL_INFO, "User property: %s = %s"%string)))).
  - rewrite omap_empty, map_size_empty. by rewrite (left_id_L ∅ (∪)).
  - intros name prop m r Hname ->. unfold load_property. cbn [fst snd].
    assert (Hnone : omap declared_value m !! name = None)
      by (rewrite lookup_omap, Hname; reflexivity).
    destruct (at_key prop "value") as [v|] eqn:Hv.
    + rewrite (omap_insert_Some _ _ _ _ v) by exact Hv.
      rewrite map_size_insert_None by exact Hnone.
      by rewrite insert_union_l.
    + rewrite omap_insert_None by exact Hv.
      by rewrite delete_id.
Qed.


Lemma properties_of_contains (doc props : json) :
  properties_of doc = Some props ->
  contains doc "general"
  && contains (default JNull (at_key doc "general")) "properties" = true /\
  default JNull (at_key (default JNull (at_key doc "general")) "properties")
  = props.
Proof.
  unfold properties_of, contains. intros H.
  destruct (at_key doc "general") as [general|]; [|discriminate H].
  cbn in H. cbn [from_option Datatypes.id]. rewrite H.
  split; [|reflexivity].
  rewrite !bool_decide_eq_true_2 by eauto. reflexivity.
Qed.

Lemma contains_properties_of (doc : json) :
  contains doc "general"
  && contains (default JNull (at_key doc "general")) "properties" = true ->
  exists props, properties_of doc = Some props.
Proof.
  unfold properties_of, contains. intros H.
  apply andb_true_iff in H as [H1 H2].
  apply bool_decide_eq_true_1 in H1 as [general Hg].
  rewrite Hg in *. cbn [from_option Datatypes.id] in H2.
  apply bool_decide_eq_true_1 in H2 as [props Hp]. exists props. exact Hp.
Qed.

End LoadFacts.

(** X12.  Loading a document whose "general"/"properties" is an object
    succeeds; afterwards a property is the value its member declares, or,
    when the member is missing or declares none, what it was before the
    load; one line is logged for each declared value. *)
Theorem LoadFromProjectJson_loads (parse : string -> option json)
    (this : WPUserProperties.WPUserProperties) (content : string)
    (doc : json) (members : gmap string json) :
  parse content = Some doc ->
  ProjectJson.properties_of doc = Some (JObject members) ->
  (ProjectJson.LoadFromProjectJson parse this content).1.1 = true /\
  (forall name,
     WPUserProperties.GetProperty
       (ProjectJson.LoadFromProjectJson parse this content).1.2 name
     = match members !! name ≫= ProjectJson.declared_value with
       | Some v => Some v
       | None => WPUserProperties.GetProperty this name
       end) /\
  (ProjectJson.LoadFromProjectJson parse this content).2
  = replicate (base.size (omap ProjectJson.declared_value members))
      (LOGLEVEL_INFO, "User property: %s = %s"%string).
Proof.
  intros Hparse Hprops. unfold ProjectJson.LoadFromProjectJson.
  rewrite Hparse.
  destruct (properties_of_contains doc _ Hprops) as [-> ->].
  rewrite load_properties_fold. cbn [fst snd]. split; [reflexivity|].
  split; [|reflexivity].
  intros name. unfold WPUserProperties.GetProperty.
  cbn [WPUserProperties.m_properties].
  rewrite lookup_union, lookup_omap.
  destruct (members !! name ≫= ProjectJson.declared_value) as [v|];
    destruct (WPUserProperties.m_properties this !! name); reflexivity.
Qed.

Lemma LoadFromProjectJson_loads_witness :
  (ProjectJson.LoadFromProjectJson example_parse example_properties
     "project.json").1.1 = true /\
  (forall name,
     WPUserProperties.GetProperty
       (ProjectJson.LoadFromProjectJson example_parse example_properties
          "project.json").1.2 name
     = match ({[ "schemecolor" := JObject {[ "value" := JString "red" ]};
                 "ui" := JObject {[ "text" := JString "UI" ]} ]}
                : gmap string json) !! name ≫= ProjectJson.declared_value with
       | Some v => Some v
       | None => WPUserProperties.GetProperty example_properties name
       end) /\
  (ProjectJson.LoadFromProjectJson example_parse example_properties
     "project.json").2
  = replicate
      (base.size
         (omap ProjectJson.declared_value
            ({[ "schemecolor" := JObject {[ "value" := JString "red" ]};
                "ui" := JObject {[ "text" := JString "UI" ]} ]}
               : gmap string json)))
      (LOGLEVEL_INFO, "User property: %s = %s"%string).
Proof.
  apply (LoadFromProjectJson_loads example_parse example_properties
           "project.json" example_document).
  - reflexivity.
  - reflexivity.
Defined.

(** X13.  A load returns [true] exactly when the content parses and its
    "general"/"properties" is an object, null or an empty array; a load
    that returns [false] leaves the table as it was. *)
Theorem LoadFromProjectJson_result (parse : string -> option json)
    (this : WPUserProperties.WPUserProperties) (content : string) :
  ((ProjectJson.LoadFromProjectJson parse this content).1.1 = true <->
   exists doc props,
     parse content = Some doc /\
     ProjectJson.properties_of doc = Some props /\
     ProjectJson.iterable props = true) /\
  ((ProjectJson.LoadFromProjectJson parse this content).1.1 = false ->
   (ProjectJson.LoadFromProjectJson parse this content).1.2 = this).
Proof.
  unfold ProjectJson.LoadFromProjectJson.
  destruct (parse content) as [doc|] eqn:Hparse; cbn [fst snd].
  2: { split; [|reflexivity]. split; [discriminate|].
       intros (d & p & [=] & _). }
  destruct (contains doc "general" && _) eqn:Hc.
  - destruct (contains_properties_of doc Hc) as [props Hp].
    destruct (properties_of_contains doc props Hp) as [_ ->].
    split.
    + split.
      * intros Hok. exists doc, props. repeat split; try assumption.
        destruct props as [| | | | | | |[|? ?]|]; cbn in *;
          first [reflexivity | discriminate Hok].
      * intros (d & p & [= <-] & Hp' & Hit). rewrite Hp in Hp'.
        injection Hp' as <-.
        destruct props as [| | | | | | |[|? ?]|]; cbn in *;
          first [reflexivity | discriminate Hit].
    + destruct props as [| | | | | | |[|? ?]|]; cbn;
        first [reflexivity | discriminate].
  - split; [|reflexivity]. split; [discriminate|].
    intros (d & p & [= <-] & Hp & _).
    destruct (properties_of_contains doc p Hp) as [Hc' _]. congruence.
Qed.

(** A plain reference, read directly off [ResolveValue]. *)
Lemma ResolveValue_plain (dump : json -> string)
    (this : WPUserProperties.WPUserProperties) (j : json) (p : string) :
  at_key j "user" = Some (JString p) ->
  WPUserProperties.ResolveValue dump this j
  = Returns (match WPUserProperties.GetProperty this p with
             | Some v => v
             | None => WPUserProperties.value_or_original j
             end).
Proof.
  intros Hu. unfold WPUserProperties.ResolveValue.
  rewrite (at_key_is_object _ _ _ Hu), (contains_at_key _ _ _ Hu), Hu.
  cbn. destruct (WPUserProperties.GetProperty this p); reflexivity.
Qed.

(** X14.  Load, then resolve: a plain reference to a property whose member
    of the loaded document declares a value resolves to that value,
    whatever default the reference carries. *)
Theorem load_then_resolve (parse : string -> option json)
    (dump : json -> string) (this : WPUserProperties.WPUserProperties)
    (content : string) (doc : json) (members : gmap string json)
    (name : string) (prop v j : json) :
  parse content = Some doc ->
  ProjectJson.properties_of doc = Some (JObject members) ->
  members !! name = Some prop ->
  ProjectJson.declared_value prop = Some v ->
  at_key j "user" = Some (JString name) ->
  WPUserProperties.ResolveValue dump
    (ProjectJson.LoadFromProjectJson parse this content).1.2 j
  = Returns v.
Proof.
  intros Hparse Hprops Hm Hv Hu.
  rewrite (ResolveValue_plain _ _ _ _ Hu).
  unfold ProjectJson.LoadFromProjectJson. rewrite Hparse.
  destruct (properties_of_contains doc _ Hprops) as [-> ->].
  rewrite load_properties_fold. cbn [fst snd].
  unfold WPUserProperties.GetProperty. cbn [WPUserProperties.m_properties].
  rewrite lookup_union, lookup_omap, Hm. cbn. rewrite Hv.
  destruct (WPUserProperties.m_properties this !! name); reflexivity.
Qed.

Lemma load_then_resolve_witness :
  WPUserProperties.ResolveValue (fun _ => EmptyString)
    (ProjectJson.LoadFromProjectJson example_parse no_properties
       "project.json").1.2 plain_reference
  = Returns (JString "red").
Proof.
  apply (load_then_resolve example_parse (fun _ => EmptyString) no_properties
           "project.json" example_document
           {[ "schemecolor" := JObject {[ "value" := JString "red" ]};
              "ui" := JObject {[ "text" := JString "UI" ]} ]}
           "schemecolor" (JObject {[ "value" := JString "red" ]})).
  all: reflexivity.
Defined.

(** Closes a goal that says the lookup part of [ResolveValue] throws. *)
Ltac no_throw Hfinal :=
  first
    [ discriminate
    | match goal with
      | |- context [WPUserProperties.GetProperty _ ?n] =>
          match goal with
          | |- context [negb (String.eqb ?c _)] =>
              exact (Hfinal (Some (n, c)))
          end
      end ].

(** X15.  [ResolveValue] throws exactly on a conditional reference whose
    "name" is not a string, or whose "condition" is present and not a
    string: whether it throws depends on the value alone, not on the
    properties. *)
Theorem ResolveValue_throws (dump : json -> string)
    (this : WPUserProperties.WPUserProperties) (j : json) :
  WPUserProperties.ResolveValue dump this j = Throws <->
  exists u name,
    at_key j "user" = Some (JObject u) /\ u !! "name" = Some name /\
    (is_string name = false \/
     exists condition,
       u !! "condition" = Some condition /\ is_string condition = false).
Proof.
  unfold WPUserProperties.ResolveValue.
  destruct (is_object j) eqn:Hobj; cbn [negb].
  2: { split; [discriminate|]. intros (u & n & Hu & _).
       apply at_key_is_object in Hu. congruence. }
  unfold contains at 1.
  destruct (at_key j "user") as [userField|] eqn:Huser.
  2: { rewrite bool_decide_eq_false_2 by (intros [? [=]]). cbn [negb].
       split; [discriminate|]. intros (u & n & [=] & _). }
  rewrite bool_decide_eq_true_2 by eauto. cbn [negb from_option Datatypes.id].
  unfold WPUserProperties.reference_of.
  assert (Hfinal : forall o : option (string * string),
            match o with
            | Some (propName, condition) =>
                match WPUserProperties.GetProperty this propName with
                | Some propValue =>
                    if negb (String.eqb condition EmptyString)
                    then
                      if contains j "value"
                         && is_boolean (default JNull (at_key j "value"))
                      then Returns
                             (JBoolean
                                (String.eqb
                                   (WPUserProperties.propStr dump propValue)
                                   condition))
                      else Returns propValue
                    else Returns propValue
                | None => Returns (WPUserProperties.value_or_original j)
                end
            | None => Returns (WPUserProperties.value_or_original j)
            end <> Throws).
  { intros [[n c]|]; [|discriminate].
    destruct (WPUserProperties.GetProperty this n); [|discriminate].
    destruct (negb _); [|discriminate].
    destruct (_ && _); discriminate. }
  destruct userField as [| | | | |s| | |u]; cbn [is_string is_object andb].
  1-8: split;
    [ intros H; exfalso; revert H; cbn [get_string and_then]; no_throw Hfinal
    | intros (u' & n' & [=] & _) ].
  unfold contains. cbn [at_key].
  destruct (u !! "name") as [name|] eqn:Hname.
  2: { rewrite bool_decide_eq_false_2 by (intros [? [=]]).
       split; [intros H; exfalso; revert H; discriminate|].
       intros (u' & n' & [= <-] & Hn & _). congruence. }
  rewrite bool_decide_eq_true_2 by eauto. cbn [from_option Datatypes.id].
  destruct name as [| | | | |n| | |]; cbn [get_string and_then].
  1-5,7-9: split; [intros _|reflexivity];
    exists u; eexists; split; [reflexivity|]; split; [eassumption|];
    left; reflexivity.
  destruct (u !! "condition") as [condition|] eqn:Hcond.
  2: { rewrite bool_decide_eq_false_2 by (intros [? [=]]).
       cbn [and_then].
       split; [intros H; exfalso; revert H; no_throw Hfinal|].
       intros (u' & n' & [= <-] & Hn & [Hs|(c & Hc & _)]).
       - rewrite Hname in Hn. injection Hn as <-. discriminate Hs.
       - congruence. }
  rewrite bool_decide_eq_true_2 by eauto. cbn [from_option Datatypes.id].
  destruct condition as [| | | | |c| | |]; cbn [get_string and_then].
  1-5,7-9: split; [intros _|reflexivity];
    exists u; eexists; split; [reflexivity|]; split; [eassumption|];
    right; eexists; split; [eassumption|reflexivity].
  split; [intros H; exfalso; revert H; no_throw Hfinal|].
  intros (u' & n' & [= <-] & Hn & [Hs|(c' & Hc & Hs)]).
  - rewrite Hname in Hn. injection Hn as <-. discriminate Hs.
  - rewrite Hcond in Hc. injection Hc as <-. discriminate Hs.
Qed.

(** X16.  A "user" member that is neither a string nor an object with a
    "name" is no reference: the value resolves to its declared default, or
    to itself when it declares none, whatever the properties are. *)
Theorem ResolveValue_unknown_format (dump : json -> string)
    (this : WPUserProperties.WPUserProperties) (j userField : json) :
  at_key j "user" = Some userField ->
  is_string userField = false ->
  is_object userField && contains userField "name" = false ->
  WPUserProperties.ResolveValue dump this j
  = Returns (WPUserProperties.value_or_original j).
Proof.
  intros Hu Hs Ho. unfold WPUserProperties.ResolveValue.
  rewrite (at_key_is_object _ _ _ Hu), (contains_at_key _ _ _ Hu), Hu.
  cbn [negb from_option Datatypes.id]. unfold WPUserProperties.reference_of.
  rewrite Hs, Ho. reflexivity.
Qed.

Lemma ResolveValue_unknown_format_witness :
  WPUserProperties.ResolveValue (fun _ => EmptyString) example_properties
    (JObject {[ "user" := JInteger 7; "value" := JString "blue" ]})
  = Returns
      (WPUserProperties.value_or_original
         (JObject {[ "user" := JInteger 7; "value" := JString "blue" ]})).
Proof.
  apply (ResolveValue_unknown_format (fun _ => EmptyString) example_properties
           (JObject {[ "user" := JInteger 7; "value" := JString "blue" ]})
           (JInteger 7)).
  all: reflexivity.
Defined.

(** X17.  A conditional reference without a "condition" member is a plain
    reference to its "name": it resolves to the property's value, or to the
    declared default when the property does not exist. *)
Theorem ResolveValue_without_condition (dump : json -> string)
    (this : WPUserProperties.WPUserProperties) (j : json)
    (u : gmap string json) (n : string) :
  at_key j "user" = Some (JObject u) ->
  u !! "name" = Some (JString n) ->
  u !! "condition" = None ->
  WPUserProperties.ResolveValue dump this j
  = Returns (match WPUserProperties.GetProperty this n with
             | Some v => v
             | None => WPUserProperties.value_or_original j
             end).
Proof.
  intros Hu Hn Hc. unfold WPUserProperties.ResolveValue.
  rewrite (at_key_is_object _ _ _ Hu), (contains_at_key _ _ _ Hu), Hu.
  cbn [negb from_option Datatypes.id]. unfold WPUserProperties.reference_of.
  cbn [is_string is_object andb].
  rewrite (contains_at_key (JObject u) "name" (JString n) Hn).
  unfold contains at 1. cbn [at_key]. rewrite Hn, Hc.
  rewrite bool_decide_eq_false_2 by (intros [? [=]]).
  cbn [from_option Datatypes.id get_string and_then].
  destruct (WPUserProperties.GetProperty this n); reflexivity.
Qed.

Lemma ResolveValue_without_condition_witness :
  WPUserProperties.ResolveValue (fun _ => EmptyString) example_properties
    (JObject {[ "user" := JObject {[ "name" := JString "schemecolor" ]};
                "value" := JBoolean true ]})
  = Returns
      (match WPUserProperties.GetProperty example_properties "schemecolor" with
       | Some v => v
       | None =>
           WPUserProperties.value_or_original
             (JObject
                {[ "user" := JObject {[ "name" := JString "schemecolor" ]};
                   "value" := JBoolean true ]})
       end).
Proof.
  apply (ResolveValue_without_condition (fun _ => EmptyString)
           example_properties
           (JObject {[ "user" := JObject {[ "name" := JString "schemecolor" ]};
                       "value" := JBoolean true ]})
           {[ "name" := JString "schemecolor" ]} "schemecolor").
  all: reflexivity.
Defined.

(** X18.  With no property loaded, resolution never invents a value: it
    throws, or returns the declared default, or returns the input. *)
Theorem ResolveValue_without_properties (dump : json -> string)
    (this : WPUserProperties.WPUserProperties) (j : json) :
  WPUserProperties.Empty this = true ->
  WPUserProperties.ResolveValue dump this j = Throws \/
  WPUserProperties.ResolveValue dump this j
  = Returns (WPUserProperties.value_or_original j) \/
  WPUserProperties.ResolveValue dump this j = Returns j.
Proof.
  intros He. apply bool_decide_eq_true_1 in He.
  assert (Hnone : forall n, WPUserProperties.GetProperty this n = None).
  { intros n. unfold WPUserProperties.GetProperty. rewrite He.
    apply lookup_empty. }
  unfold WPUserProperties.ResolveValue.
  destruct (negb (is_object j)); [right; right; reflexivity|].
  destruct (negb (contains j "user")); [right; right; reflexivity|].
  destruct (WPUserProperties.reference_of _) as [[[n c]|]|];
    cbn [and_then]; [| right; left; reflexivity | left; reflexivity].
  rewrite Hnone. right; left; reflexivity.
Qed.

Lemma ResolveValue_without_properties_witness :
  WPUserProperties.ResolveValue (fun _ => EmptyString) no_properties
    plain_reference = Throws \/
  WPUserProperties.ResolveValue (fun _ => EmptyString) no_properties
    plain_reference
  = Returns (WPUserProperties.value_or_original plain_reference) \/
  WPUserProperties.ResolveValue (fun _ => EmptyString) no_properties
    plain_reference = Returns plain_reference.
Proof.
  apply (ResolveValue_without_properties (fun _ => EmptyString) no_properties
           plain_reference).
  reflexivity.
Defined.

(** X19.  [Empty] says that no name has a property, and [HasProperty] says
    that [GetProperty] finds one. *)
Theorem Empty_HasProperty (this : WPUserProperties.WPUserProperties) :
  (WPUserProperties.Empty this = true <->
   forall name, WPUserProperties.HasProperty this name = false) /\
  (forall name,
     WPUserProperties.HasProperty this name = true <->
     exists v, WPUserProperties.GetProperty this name = Some v).
Proof.
  unfold WPUserProperties.Empty, WPUserProperties.HasProperty,
    WPUserProperties.GetProperty.
  split.
  - rewrite bool_decide_eq_true, map_empty. split.
    + intros H name. rewrite H.
      apply bool_decide_eq_false_2. intros [? [=]].
    + intros H name. specialize (H name).
      apply bool_decide_eq_false_1 in H.
      destruct (WPUserProperties.m_properties this !! name); [|reflexivity].
      exfalso. apply H. eauto.
  - intros name. rewrite bool_decide_eq_true. reflexivity.
Qed.

(* ================================================================== *)
(** * [UserPropertiesScope] *)
(* ================================================================== *)

Section ScopeFacts.

Import UserPropertiesScope.

Context {P : Type}.

Implicit Types (t : Thread P) (actions : list (Action P)).

(** Guards come and go, the outermost remembered pointer stays. *)
Lemma run_keeps_outermost actions t t' :
  run actions t = Some t' -> last (pointers t') = last (pointers t).
Proof.
  revert t. induction actions as [|[props|] actions IH]; intros t; cbn [run].
  - intros [= ->]. reflexivity.
  - intros H. rewrite (IH _ H). unfold pointers, construct. cbn.
    destruct (guards t); reflexivity.
  - unfold destruct_innermost.
    destruct (guards t) as [|scope rest] eqn:Hg; [discriminate|].
    intros H. rewrite (IH _ H). unfold pointers. cbn. rewrite Hg. cbn.
    destruct rest; reflexivity.
Qed.

End ScopeFacts.

(** X20.  Scope guards nest: whatever guards a thread constructs and
    destroys, innermost first, once none is left the thread-local pointer
    is what it was before the first one was constructed. *)
Theorem UserPropertiesScope_restores {P : Type}
    (actions : list (UserPropertiesScope.Action P))
    (before : option P) (t' : UserPropertiesScope.Thread P) :
  UserPropertiesScope.run actions (UserPropertiesScope.mkThread before [])
  = Some t' ->
  UserPropertiesScope.guards t' = [] ->
  UserPropertiesScope.g_currentUserProperties t' = before.
Proof.
  intros Hrun Hg. apply run_keeps_outermost in Hrun.
  unfold UserPropertiesScope.pointers in Hrun. rewrite Hg in Hrun.
  cbn in Hrun. congruence.
Qed.

Lemma UserPropertiesScope_restores_witness :
  UserPropertiesScope.g_currentUserProperties
    (UserPropertiesScope.mkThread (Some example_properties) [])
  = Some example_properties.
Proof.
  apply (UserPropertiesScope_restores
           [UserPropertiesScope.Enter (Some no_properties);
            UserPropertiesScope.Enter None;
            UserPropertiesScope.Leave;
            UserPropertiesScope.Leave]
           (Some example_properties)
           (UserPropertiesScope.mkThread (Some example_properties) [])).
  - reflexivity.
  - reflexivity.
Defined.

(* ================================================================== *)
(** * [GLErrorToStr] *)
(* ================================================================== *)

(** X21.  [GLErrorToStr] answers "Unknown GLError" exactly for the codes
    outside its six cases, and two codes with the same known name are the
    same code. *)
Theorem GLErrorToStr_names (a b : Z) :
  (GLErrorToStr a = "Unknown GLError"%string <-> a ∉ known_errors) /\
  (GLErrorToStr a = GLErrorToStr b ->
   GLErrorToStr a <> "Unknown GLError"%string -> a = b).
Proof.
  unfold GLErrorToStr, known_errors.
  split.
  - rewrite !not_elem_of_cons.
    repeat match goal with
           | |- context [?x =? ?y] => destruct (Z.eqb_spec x y)
           end;
      split; try discriminate; try tauto.
    intros _. repeat split; try assumption. apply not_elem_of_nil.
  - repeat match goal with
           | |- context [?x =? ?y] => destruct (Z.eqb_spec x y)
           end;
      intros H1 H2; try discriminate H1; try congruence.
Qed.
